(** * Team store, configuration resolution and invite dispatch

    A shallow embedding of [team.ts]: the Deno KV team store
    ([loadTeams], [saveTeam], [deleteTeam]), the configuration resolver
    ([getAllConfigs]), the outbound call ([sendInvitesApi]) and the oak
    route handlers of [/api/invite] and [/api/teams].

    The key-value store is a finite map from the [id] part of the key
    [["teams", id]] to the stored record.  The platform is explicit:
    [Deno.env] is a finite map, [crypto.randomUUID()] is the string it
    returns, [fetch] is a function from the request to its completion,
    and [String.prototype.localeCompare] is a variable of the section.
    Deno KV refuses to write a key of more than 2048 bytes or a value of
    more than 65536 bytes; the length of a serialized value is a variable
    of the section too. *)

From Stdlib Require Import ZArith String Ascii List Sorting.Sorted.
From stdpp Require Import base option list sorting gmap strings fin_maps.

Set Warnings "-register-all".
Open Scope string_scope.

(** ** JavaScript values *)

(** The JSON-shaped values the handlers read from a request body and
    write to a response body.  Numbers are the integers. *)
Inductive JsVal : Type :=
  | JUndefined
  | JNull
  | JBool (b : bool)
  | JNum (n : Z)
  | JStr (s : string)
  | JArr (items : list JsVal)
  | JObj (members : list (string * JsVal)).

(** ToBoolean. *)
Definition truthy (v : JsVal) : bool :=
  match v with
  | JUndefined | JNull => false
  | JBool b => b
  | JNum n => negb (n =? 0)%Z
  | JStr s => negb (s =? "")
  | JArr _ | JObj _ => true
  end.

(** [a || b]. *)
Definition js_or (a b : JsVal) : JsVal := if truthy a then a else b.

Definition isArray (v : JsVal) : bool :=
  match v with JArr _ => true | _ => false end.

(** [v.length] of an array. *)
Definition array_length (v : JsVal) : nat :=
  match v with JArr items => length items | _ => 0 end.

(** An awaited computation either yields a value or throws an error
    with a message. *)
Inductive Completion (A : Type) : Type :=
  | Ok (a : A)
  | Throw (message : string).
Arguments Ok {A} a.
Arguments Throw {A} message.

Fixpoint assoc (k : string) (ms : list (string * JsVal)) : JsVal :=
  match ms with
  | [] => JUndefined
  | (k', v) :: ms' => if k =? k' then v else assoc k ms'
  end.

(** [body.k] for the member names the handlers read ([emails], [role],
    [resend], [teamId]): a [TypeError] on [undefined] and [null], the
    member of an object, and [undefined] on every other value. *)
Definition get_prop (v : JsVal) (k : string) : Completion JsVal :=
  match v with
  | JUndefined =>
      Throw ("Cannot read properties of undefined (reading '" ++ k ++ "')")
  | JNull => Throw ("Cannot read properties of null (reading '" ++ k ++ "')")
  | JObj ms => Ok (assoc k ms)
  | _ => Ok JUndefined
  end.

(** ** Optional strings *)

(** [!s] for a value of type [string | undefined]. *)
Definition falsy (o : option string) : bool :=
  match o with
  | None => true
  | Some s => s =? ""
  end.

(** [s || d] for [s : string | undefined]. *)
Definition or_str (o : option string) (d : string) : string :=
  match o with
  | None => d
  | Some s => if s =? "" then d else s
  end.

Definition js_of_opt (o : option string) : JsVal :=
  match o with
  | None => JUndefined
  | Some s => JStr s
  end.

(** ** Teams *)

(** [interface Team]; [name] and [id] are optional. *)
Record Team : Type := mkTeam {
  token : string;
  accountId : string;
  name : option string;
  id : option string
}.

Definition set_id (t : Team) (i : string) : Team :=
  {| token := token t; accountId := accountId t; name := name t;
     id := Some i |}.

Definition opt_member (k : string) (o : option string)
  : list (string * JsVal) :=
  match o with
  | None => []
  | Some s => [(k, JStr s)]
  end.

(** The object a [Team] is when it is put in a response body. *)
Definition team_to_js (t : Team) : JsVal :=
  JObj ([("token", JStr (token t)); ("accountId", JStr (accountId t))]
        ++ opt_member "name" (name t) ++ opt_member "id" (id t)).

(** [t.id === v]. *)
Definition id_strict_eq (t : Team) (v : JsVal) : bool :=
  match id t, v with
  | Some i, JStr s => i =? s
  | None, JUndefined => true
  | _, _ => false
  end.

(** ** Sorting *)

(** [Array.prototype.sort] is stable: an element goes in front of the
    first later element it does not follow. *)
Definition sort_by {A} (R : relation A) `{∀ x y, Decision (R x y)}
  (l : list A) : list A :=
  foldr (λ x acc, list_merge R [x] acc) [] l.

(** Deno KV lists the entries of a prefix in the order of their keys;
    string key parts are ordered bytewise. *)
Definition key_le (a b : string * Team) : Prop := (a.1 <=? b.1) = true.

Global Instance key_le_dec a b : Decision (key_le a b).
Proof. unfold key_le. apply _. Defined.

(** [kv.list({ prefix: ["teams"] })]. *)
Definition kv_list (kv : gmap string Team) : list (string * Team) :=
  sort_by key_le (map_to_list kv).

(** Every record is stored under its own [id], as [saveTeam] stores it. *)
Definition kv_wf (kv : gmap string Team) : Prop :=
  map_Forall (λ k t, id t = Some k) kv.

(** ** The platform *)

Definition is_hex (c : ascii) : bool :=
  let n := nat_of_ascii c in
  ((48 <=? n) && (n <=? 57) || (97 <=? n) && (n <=? 102))%nat.

Fixpoint uuid_from (i : nat) (s : string) : bool :=
  match s with
  | EmptyString => true
  | String c s' =>
      (if bool_decide (i ∈ [8; 13; 18; 23]) then Ascii.eqb c "-"
       else is_hex c)
      && uuid_from (S i) s'
  end.

(** The strings [crypto.randomUUID()] returns: 36 characters, lower-case
    hexadecimal digits in five groups separated by hyphens. *)
Definition is_uuid (s : string) : bool :=
  (String.length s =? 36)%nat && uuid_from 0 s.

(** An error thrown while awaiting propagates. *)
Global Instance Completion_bind : MBind Completion :=
  λ A B f c, match c with Ok a => f a | Throw e => Throw e end.

(** Deno KV encodes the key [["teams", id]] part by part: a type byte,
    the bytes of the part with an escape byte after every zero byte, and
    a terminating zero byte. *)
Fixpoint escaped_length (s : string) : Z :=
  match s with
  | EmptyString => 0%Z
  | String c s' =>
      ((if Ascii.eqb c zero then 2 else 1) + escaped_length s')%Z
  end.

Definition key_bytes (id : string) : Z :=
  ((1 + 5 + 1) + (1 + escaped_length id + 1))%Z.

Definition max_key_bytes : Z := 2048.

Definition max_value_bytes : Z := 65536.

(** A write, [kv.set] or [kv.delete], throws when the encoded key is
    longer than [max_key_bytes]. The text of the message is the
    platform's. *)
Definition check_key (id : string) : Completion unit :=
  if (max_key_bytes <? key_bytes id)%Z
  then Throw "Key too large for write (max 2048 bytes)"
  else Ok tt.

(** The request [fetch] is given.  [payload] is the value handed to
    [JSON.stringify]. *)
Record Request : Type := mkRequest {
  url : string;
  method : string;
  headers : list (string * string);
  payload : JsVal
}.

(** The [Response] of a completed [fetch]: its status, and what
    [response.text()] and [response.json()] complete with. *)
Record Response : Type := mkResponse {
  status : Z;
  text : Completion string;
  json : Completion JsVal
}.

(** [response.ok]. *)
Definition ok (r : Response) : bool :=
  ((200 <=? status r) && (status r <=? 299))%Z.

(** What a handler leaves in [ctx.response]; [None] is a member the
    handler did not assign. *)
Record Reply : Type := mkReply {
  rs_status : option Z;
  rs_body : option JsVal
}.

Definition error_body (message : string) : JsVal :=
  JObj [("error", JStr message)].

(** The value [sendInvitesApi] returns. *)
Inductive InviteResult : Type :=
  | Success (data : JsVal)
  | Failure (statusCode : Z) (error : string).

Definition result_to_js (r : InviteResult) : JsVal :=
  match r with
  | Success data => JObj [("success", JBool true); ("data", data)]
  | Failure statusCode error =>
      JObj [("success", JBool false); ("statusCode", JNum statusCode);
            ("error", JStr error)]
  end.

Definition success (r : InviteResult) : bool :=
  match r with Success _ => true | Failure _ _ => false end.

(** [result.success ? 200 : (result.statusCode || 500)]. *)
Definition result_status (r : InviteResult) : Z :=
  match r with
  | Success _ => 200
  | Failure statusCode _ => if (statusCode =? 0)%Z then 500 else statusCode
  end.

(** The body of [POST /api/teams] as the route declares it: [token],
    [accountId] and [name] are strings when present; [tb_others] holds
    every other member a client sends. *)
Record TeamsBody : Type := mkTeamsBody {
  tb_token : option string;
  tb_accountId : option string;
  tb_name : option string;
  tb_others : list (string * JsVal)
}.

(** The body value of a typed body; an absent member reads as
    [undefined]. *)
Definition body_value (body : TeamsBody) : JsVal :=
  JObj ([("token", js_of_opt (tb_token body));
         ("accountId", js_of_opt (tb_accountId body));
         ("name", js_of_opt (tb_name body))] ++ tb_others body).

(** [const { token, accountId, name } = body]. *)
Definition destructure (body : JsVal) : Completion (JsVal * JsVal * JsVal) :=
  match body with
  | JUndefined =>
      Throw "Cannot destructure property 'token' of 'body' as it is undefined."
  | JNull =>
      Throw "Cannot destructure property 'token' of 'body' as it is null."
  | JObj ms => Ok (assoc "token" ms, assoc "accountId" ms, assoc "name" ms)
  | _ => Ok (JUndefined, JUndefined, JUndefined)
  end.

(** [{ token, accountId, name: name || "Team" }] once [saveTeam] has
    given it the generated [id]. *)
Definition new_team (token accountId name : JsVal) (id : string) : JsVal :=
  JObj [("token", token); ("accountId", accountId);
        ("name", js_or name (JStr "Team")); ("id", JStr id)].

(** The team [POST /api/teams] adds for a typed body. *)
Definition added_team (token accountId : string) (name : option string)
    (id : string) : Team :=
  {| token := token; accountId := accountId;
     name := Some (or_str name "Team"); id := Some id |}.

(** The body with its other members replaced. *)
Definition with_others (body : TeamsBody) (others : list (string * JsVal))
  : TeamsBody :=
  {| tb_token := tb_token body; tb_accountId := tb_accountId body;
     tb_name := tb_name body; tb_others := others |}.

(** ** A comparator and a network to run the program with *)

(** Comparison by code units, as [localeCompare] orders ASCII digits and
    lower-case letters among themselves. *)
Definition unitCompare (a b : string) : Z :=
  match String.compare a b with
  | Lt => (-1)%Z
  | Eq => 0%Z
  | Gt => 1%Z
  end.

(** An upstream that rejects every request. *)
Definition forbidden (_ : Request) : Completion Response :=
  Ok {| status := 403; text := Ok "forbidden";
        json := Throw "Unexpected token 'f'" |}.

(** An upstream that accepts every request. *)
Definition accepting (_ : Request) : Completion Response :=
  Ok {| status := 200; text := Ok "{}"; json := Ok (JObj []) |}.

(** A network that is down. *)
Definition unreachable (_ : Request) : Completion Response :=
  Throw "error sending request".

(** A stand-in for the length of a serialized value: the characters of
    the strings in it, those of the member names included. *)
Fixpoint text_size (v : JsVal) : Z :=
  match v with
  | JStr s => Z.of_nat (String.length s)
  | JArr items =>
      (fix go (l : list JsVal) : Z :=
         match l with
         | [] => 0%Z
         | v' :: l' => (text_size v' + go l')%Z
         end) items
  | JObj members =>
      (fix go (l : list (string * JsVal)) : Z :=
         match l with
         | [] => 0%Z
         | (k, v') :: l' =>
             (Z.of_nat (String.length k) + text_size v' + go l')%Z
         end) members
  | _ => 1%Z
  end.

(** [n] times the letter [a]. *)
Fixpoint letters (n : nat) : string :=
  match n with
  | O => EmptyString
  | S n' => String "a" (letters n')
  end.

(** An id whose key has 2049 bytes, and a token of 70000 characters. *)
Definition long_id : string := letters (Z.to_nat 2040).

Definition long_token : string := letters (Z.to_nat 70000).

Definition alpha : Team :=
  {| token := "t1"; accountId := "a1"; name := Some "Alpha";
     id := Some "7d9f3c1e-5a2b-4c8d-9e1f-0a1b2c3d4e5f" |}.

Definition beta : Team :=
  {| token := "t2"; accountId := "a2"; name := Some "Beta";
     id := Some "1b4e28ba-2fa1-41d2-883f-0016d3cca427" |}.

Definition unnamed : Team :=
  {| token := "t3"; accountId := "a3"; name := None;
     id := Some "c56a4180-65aa-42ec-a945-5fd21dec0538" |}.

(** Two teams added without a name. *)
Definition first_team : Team :=
  {| token := "t4"; accountId := "a4"; name := Some "Team";
     id := Some "1b4e28ba-2fa1-41d2-883f-0016d3cca427" |}.

Definition second_team : Team :=
  {| token := "t5"; accountId := "a5"; name := Some "Team";
     id := Some "7d9f3c1e-5a2b-4c8d-9e1f-0a1b2c3d4e5f" |}.

Definition store_of (teams : list Team) : gmap string Team :=
  list_to_map ((λ t, (or_str (id t) "", t)) <$> teams).

(** [{emails: ["x@y.com"], teamId}]. *)
Definition invite_body (teamId : JsVal) : JsVal :=
  JObj [("emails", JArr [JStr "x@y.com"]); ("teamId", teamId)].

Definition add_body (name : option string) : TeamsBody :=
  {| tb_token := Some "t1"; tb_accountId := Some "a1"; tb_name := name;
     tb_others := [("id", JStr "7d9f3c1e-5a2b-4c8d-9e1f-0a1b2c3d4e5f")] |}.

Definition env_set : gmap string string :=
  {[ "CHATGPT_TOKEN" := "env-token"; "CHATGPT_ACCOUNT_ID" := "env-account" ]}.

Section Program.

(** [a.localeCompare(b)]: negative, zero or positive. *)
Variable localeCompare : string → string → Z.

(** [fetch(url, init)]. *)
Variable fetch : Request → Completion Response.

(** The length in bytes of the serialization of a value, which Deno KV
    bounds by [max_value_bytes]. *)
Variable value_size : JsVal → Z.

(** *** sendInvitesApi *)

Definition invite_request
    (emails role resend : JsVal) (token accountId : string) : Request :=
  {| url := "https://chat.openai.com/backend-api/teams/" ++ accountId
            ++ "/invites";
     method := "POST";
     headers :=
       [("Authorization", "Bearer " ++ token);
        ("Content-Type", "application/json");
        ("User-Agent",
         "Mozilla/5.0 (Windows NT 10.0; Win64; x64) AppleWebKit/537.36")];
     payload :=
       JObj [("emails", emails); ("role", role); ("resend", resend)] |}.

(** The requests sent, and the completion. The [catch] block logs and
    throws the error again. *)
Definition sendInvitesApi
    (emails role resend : JsVal) (token accountId : string)
  : list Request * Completion InviteResult :=
  let request := invite_request emails role resend token accountId in
  ([request],
   response ← fetch request;
   if negb (ok response) then
     text ← text response;
     Ok (Failure (status response) text)
   else
     data ← json response;
     Ok (Success data)).

(** *** The team store *)

(** [(a, b) => (a.name || "").localeCompare(b.name || "")] puts [a]
    first unless the result is positive. *)
Definition name_le (a b : Team) : Prop :=
  (localeCompare (or_str (name a) "") (or_str (name b) "") ≤ 0)%Z.

Global Instance name_le_dec a b : Decision (name_le a b).
Proof. unfold name_le. apply _. Defined.

Definition loadTeams (kv : gmap string Team) : list Team :=
  sort_by name_le ((kv_list kv).*2).

(** [kv.set(["teams", id], value)] throws on a key or a value that is
    too long, and stores nothing then. *)
Definition kv_set_check (id : string) (value : JsVal) : Completion unit :=
  check_key id;;
  if (max_value_bytes <? value_size value)%Z
  then Throw "Value too large (max 65536 bytes)"
  else Ok tt.

(** [team] is changed in place: the caller sees the [id], so the team
    is returned with the store. [uuid] is what [crypto.randomUUID()]
    returns when it is called. *)
Definition saveTeam (uuid : string) (kv : gmap string Team) (team : Team)
  : Completion (Team * gmap string Team) :=
  let team := if falsy (id team) then set_id team uuid else team in
  kv_set_check (or_str (id team) uuid) (team_to_js team);;
  Ok (team, <[or_str (id team) uuid := team]> kv).

(** The store [deleteTeam(id)] leaves when [kv.delete] completes, as it
    does unless [check_key id] throws. *)
Definition deleteTeam (id : string) (kv : gmap string Team)
  : gmap string Team :=
  delete id kv.

(** *** Configuration resolution *)

Definition fallback (fallbackToken fallbackAccountId : string) : Team :=
  {| token := fallbackToken; accountId := fallbackAccountId;
     name := Some "Default Env/Global"; id := Some "default" |}.

Definition getAllConfigs (env : gmap string string)
    (kv : gmap string Team) : list Team :=
  let teams := loadTeams kv in
  if (length teams =? 0)%nat then
    let fallbackToken := env !! "CHATGPT_TOKEN" in
    let fallbackAccountId := env !! "CHATGPT_ACCOUNT_ID" in
    match fallbackToken, fallbackAccountId with
    | Some fallbackToken, Some fallbackAccountId =>
        if negb (fallbackToken =? "") && negb (fallbackAccountId =? "")
        then [fallback fallbackToken fallbackAccountId]
        else teams
    | _, _ => teams
    end
  else teams.

(** [configs.find(t => t.id === teamId)
     || (configs.length === 1 ? configs[0] : null)]. *)
Definition select (configs : list Team) (teamId : JsVal) : option Team :=
  match find (λ t, id_strict_eq t teamId) configs with
  | Some t => Some t
  | None => if (length configs =? 1)%nat then head configs else None
  end.

(** *** Routes *)

(** [POST /api/invite]: the reply and the requests sent, or the error
    that leaves the handler. *)
Definition post_invite (env : gmap string string) (kv : gmap string Team)
    (body : JsVal) : Completion (Reply * list Request) :=
  emails ← get_prop body "emails";
  role ← get_prop body "role";
  let role := js_or role (JStr "reader") in
  resend ← get_prop body "resend";
  let resend := js_or resend (JBool false) in
  teamId ← get_prop body "teamId";
  if negb (truthy emails) || negb (isArray emails)
     || (array_length emails =? 0)%nat
  then
    Ok ({| rs_status := Some 400%Z;
           rs_body := Some (error_body "Emails array is required") |}, [])
  else
    let configs := getAllConfigs env kv in
    if (length configs =? 0)%nat then
      Ok ({| rs_status := Some 500%Z;
             rs_body :=
               Some (error_body "No team configuration available") |}, [])
    else
      match select configs teamId with
      | None =>
          Ok ({| rs_status := Some 400%Z;
                 rs_body :=
                   Some (error_body "Invalid or missing team selection") |},
              [])
      | Some config =>
          let (sent, completion) :=
            sendInvitesApi emails role resend
              (token config) (accountId config) in
          match completion with
          | Ok result =>
              Ok ({| rs_status := Some (result_status result);
                     rs_body :=
                       Some (JObj [("success", JBool (success result));
                                   ("team", js_of_opt (name config));
                                   ("details", result_to_js result)]) |},
                  sent)
          | Throw message =>
              Ok ({| rs_status := Some 500%Z;
                     rs_body :=
                       Some (JObj [("success", JBool false);
                                   ("team", js_of_opt (name config));
                                   ("error", JStr message)]) |},
                  sent)
          end
      end.

(** [GET /api/teams]. *)
Definition get_teams (kv : gmap string Team) : Reply :=
  {| rs_status := None;
     rs_body := Some (JArr (team_to_js <$> loadTeams kv)) |}.

(** [POST /api/teams] on any body value: the reply, or the error that
    leaves the handler, and the entries written, each the [id] of its
    key and its value. [saveTeam] gets a team without an [id], gives it
    the generated one and writes it under that. *)
Definition post_teams_value (uuid : string) (body : JsVal)
  : Completion Reply * list (string * JsVal) :=
  match destructure body with
  | Throw message => (Throw message, [])
  | Ok (token, accountId, name) =>
      if negb (truthy token) || negb (truthy accountId) then
        (Ok {| rs_status := Some 400%Z;
               rs_body :=
                 Some (error_body "Token and Account ID are required") |},
         [])
      else
        let newTeam := new_team token accountId name uuid in
        match kv_set_check uuid newTeam with
        | Throw message => (Throw message, [])
        | Ok _ =>
            (Ok {| rs_status := Some 201%Z;
                   rs_body :=
                     Some (JObj [("success", JBool true);
                                 ("team", newTeam)]) |},
             [(uuid, newTeam)])
        end
  end.

(** [POST /api/teams] on a body with members typed as [interface Team]
    types them, with the store of teams: the reply, or the error that
    leaves the handler, and the store afterwards. *)
Definition post_teams (uuid : string) (kv : gmap string Team)
    (body : TeamsBody) : Completion Reply * gmap string Team :=
  let token := tb_token body in
  let accountId := tb_accountId body in
  let name := tb_name body in
  match token, accountId with
  | Some token, Some accountId =>
      if (token =? "") || (accountId =? "") then
        (Ok {| rs_status := Some 400%Z;
               rs_body :=
                 Some (error_body "Token and Account ID are required") |},
         kv)
      else
        let newTeam :=
          {| token := token; accountId := accountId;
             name := Some (or_str name "Team"); id := None |} in
        match saveTeam uuid kv newTeam with
        | Throw message => (Throw message, kv)
        | Ok (newTeam, kv) =>
            (Ok {| rs_status := Some 201%Z;
                   rs_body :=
                     Some (JObj [("success", JBool true);
                                 ("team", team_to_js newTeam)]) |}, kv)
        end
  | _, _ =>
      (Ok {| rs_status := Some 400%Z;
             rs_body :=
               Some (error_body "Token and Account ID are required") |}, kv)
  end.

(** [DELETE /api/teams/:id]; [id] is [ctx.params.id]. The reply, or the
    error of [kv.delete] that leaves the handler, and the store
    afterwards. *)
Definition delete_teams (kv : gmap string Team) (id : option string)
  : Completion Reply * gmap string Team :=
  match id with
  | Some id =>
      if id =? "" then
        (Ok {| rs_status := Some 400%Z; rs_body := None |}, kv)
      else
        match check_key id with
        | Throw message => (Throw message, kv)
        | Ok _ =>
            (Ok {| rs_status := None;
                   rs_body := Some (JObj [("success", JBool true)]) |},
             deleteTeam id kv)
        end
  | None => (Ok {| rs_status := Some 400%Z; rs_body := None |}, kv)
  end.


(** *** Serving requests *)

(** A request to the routes that write to the store. *)
Inductive StoreRequest : Type :=
  | AddTeam (body : TeamsBody)
  | DeleteTeam (id : option string).

(** Whether [POST /api/teams] reaches [saveTeam], and with it
    [crypto.randomUUID()]. *)
Definition generates (body : TeamsBody) : bool :=
  negb (falsy (tb_token body) || falsy (tb_accountId body)).

(** The routes applied to one request after the other. [uuids i] is the
    result of the [i]-th call of [crypto.randomUUID()]; [n] calls have
    been made. *)
Fixpoint serve (uuids : nat → string) (n : nat) (kv : gmap string Team)
    (requests : list StoreRequest) : nat * gmap string Team :=
  match requests with
  | [] => (n, kv)
  | AddTeam body :: requests =>
      serve uuids (if generates body then S n else n)
        (post_teams (uuids n) kv body).2 requests
  | DeleteTeam id :: requests =>
      serve uuids n (delete_teams kv id).2 requests
  end.

(** Every key in use is one of the first [n] generated ids. *)
Definition keys_generated (uuids : nat → string) (n : nat)
    (kv : gmap string Team) : Prop :=
  ∀ k, is_Some (kv !! k) → ∃ i, i < n ∧ k = uuids i.

(** *** Reading routes *)

(** [GET /api/config]: the reply and the response headers set.
    [config] is [configs[0] || {}]: a member of [{}] is [undefined]. *)
Definition get_config (env : gmap string string) (kv : gmap string Team)
  : Reply * list (string * string) :=
  let configs := getAllConfigs env kv in
  let config := head configs in
  ({| rs_status := None;
      rs_body :=
        Some (JObj [("token", js_of_opt (token <$> config));
                    ("accountId", js_of_opt (accountId <$> config));
                    ("hasConfig",
                     JBool (negb (falsy (token <$> config))))]) |},
   [("Content-Type", "application/json")]).

(** [GET /health]. *)
Definition get_health (env : gmap string string) (kv : gmap string Team)
  : Reply * list (string * string) :=
  let configs := getAllConfigs env kv in
  ({| rs_status := None;
      rs_body :=
        Some (JObj [("status", JStr "ok");
                    ("teamsCount", JNum (Z.of_nat (length configs)))]) |},
   [("Content-Type", "application/json")]).

(** No stored token is empty. *)
Definition kv_tokens (kv : gmap string Team) : Prop :=
  map_Forall (λ _ t, token t ≠ "") kv.

(** What [POST /api/teams] stores: a record under its own id, with a
    token, an accountId and a name that are not empty. *)
Definition kv_valid (kv : gmap string Team) : Prop :=
  map_Forall
    (λ k t,
       id t = Some k ∧ token t ≠ "" ∧ accountId t ≠ ""
       ∧ ∃ n, name t = Some n ∧ n ≠ "")
    kv.

(** ** Sorting *)

Section sort_by.
Context {A} (R : relation A) `{∀ x y, Decision (R x y)}.

Lemma sort_by_Permutation l : sort_by R l ≡ₚ l.
Proof.
  induction l as [|x l IH]; [done|].
  cbn [sort_by foldr]. rewrite merge_Permutation. cbn. by f_equiv.
Qed.

Lemma Sorted_sort_by `{!Total R} l : Sorted R (sort_by R l).
Proof.
  induction l as [|x l IH]; [constructor|].
  cbn [sort_by foldr]. apply (Sorted_list_merge R); [|exact IH].
  repeat constructor.
Qed.

Lemma StronglySorted_sort_by `{!Transitive R, !Total R} l :
  StronglySorted R (sort_by R l).
Proof. apply Sorted_StronglySorted; [done|]. apply Sorted_sort_by. Qed.

Lemma length_sort_by l : length (sort_by R l) = length l.
Proof. by rewrite sort_by_Permutation. Qed.

Lemma elem_of_sort_by x l : x ∈ sort_by R l ↔ x ∈ l.
Proof. by rewrite sort_by_Permutation. Qed.

End sort_by.

(** ** The team store *)

Implicit Types (kv : gmap string Team) (env : gmap string string).
Implicit Types (t config : Team) (body teamId emails : JsVal).

Lemma kv_list_Permutation kv : kv_list kv ≡ₚ map_to_list kv.
Proof. apply sort_by_Permutation. Qed.

Lemma loadTeams_Permutation kv : loadTeams kv ≡ₚ (map_to_list kv).*2.
Proof.
  unfold loadTeams.
  by rewrite sort_by_Permutation, kv_list_Permutation.
Qed.

(** The list holds the stored records and nothing else. *)
Lemma elem_of_loadTeams kv t : t ∈ loadTeams kv ↔ ∃ k, kv !! k = Some t.
Proof.
  rewrite loadTeams_Permutation, list_elem_of_fmap. split.
  - intros [[k t'] [-> Hin]]. exists k. by apply elem_of_map_to_list.
  - intros [k Hk]. exists (k, t). split; [done|].
    by apply elem_of_map_to_list.
Qed.

Lemma length_loadTeams kv : length (loadTeams kv) = size kv.
Proof.
  by rewrite loadTeams_Permutation, length_fmap, length_map_to_list.
Qed.

Lemma loadTeams_nil kv : loadTeams kv = [] ↔ kv = ∅.
Proof.
  rewrite <-length_zero_iff_nil, length_loadTeams. apply map_size_empty_iff.
Qed.

(** ** Configuration resolution *)

Lemma getAllConfigs_stored env kv :
  loadTeams kv ≠ [] → getAllConfigs env kv = loadTeams kv.
Proof.
  intros Hne. unfold getAllConfigs.
  destruct (loadTeams kv) as [|t l]; [done|reflexivity].
Qed.

(** The result is the stored list unless the store is empty and both
    variables are set to non-empty strings. *)
Lemma getAllConfigs_cases env kv :
  getAllConfigs env kv = loadTeams kv
  ∨ kv = ∅
    ∧ ∃ fallbackToken fallbackAccountId,
        env !! "CHATGPT_TOKEN" = Some fallbackToken
        ∧ env !! "CHATGPT_ACCOUNT_ID" = Some fallbackAccountId
        ∧ fallbackToken ≠ "" ∧ fallbackAccountId ≠ ""
        ∧ getAllConfigs env kv = [fallback fallbackToken fallbackAccountId].
Proof.
  unfold getAllConfigs.
  destruct (loadTeams kv) as [|t l] eqn:Hl; cbn [length Nat.eqb]; [|by left].
  apply loadTeams_nil in Hl.
  destruct (env !! "CHATGPT_TOKEN") as [tok|]; [|by left].
  destruct (env !! "CHATGPT_ACCOUNT_ID") as [acc|]; [|by left].
  destruct (String.eqb_spec tok ""); [by left|].
  destruct (String.eqb_spec acc ""); [by left|].
  right. split; [done|]. by exists tok, acc.
Qed.

(** C1. When the store holds a team, [getAllConfigs] returns the list of
    the stored teams whatever the environment holds, and every record of
    it is a stored one. In every state the result is either that list, or
    the store is empty, [CHATGPT_TOKEN] and [CHATGPT_ACCOUNT_ID] are both
    set, and the result is the one record with id ["default"] built from
    them. *)
Theorem getAllConfigs_fallback_exclusive env kv :
  (loadTeams kv ≠ [] →
   getAllConfigs env kv = loadTeams kv
   ∧ ∀ t, t ∈ getAllConfigs env kv → ∃ k, kv !! k = Some t)
  ∧ (getAllConfigs env kv = loadTeams kv
     ∨ loadTeams kv = [] ∧ kv = ∅
       ∧ ∃ fallbackToken fallbackAccountId,
           env !! "CHATGPT_TOKEN" = Some fallbackToken
           ∧ env !! "CHATGPT_ACCOUNT_ID" = Some fallbackAccountId
           ∧ fallbackToken ≠ "" ∧ fallbackAccountId ≠ ""
           ∧ getAllConfigs env kv
             = [{| token := fallbackToken; accountId := fallbackAccountId;
                   name := Some "Default Env/Global";
                   id := Some "default" |}]).
Proof.
  split.
  - intros Hl. rewrite (getAllConfigs_stored _ _ Hl). split; [done|].
    intros t. by rewrite elem_of_loadTeams.
  - destruct (getAllConfigs_cases env kv) as [?|[Hkv ?]]; [by left|right].
    by rewrite loadTeams_nil.
Qed.

(** ** Selection *)

Lemma id_strict_eq_true t v : id_strict_eq t v = true ↔ js_of_opt (id t) = v.
Proof.
  unfold id_strict_eq.
  destruct (id t) as [i|], v; cbn; try (split; congruence).
  rewrite String.eqb_eq. split; congruence.
Qed.

Lemma find_id_None configs teamId :
  (∀ t, t ∈ configs → js_of_opt (id t) ≠ teamId) →
  find (λ t, id_strict_eq t teamId) configs = None.
Proof.
  induction configs as [|c configs IH]; intros Hall; [done|]. cbn.
  destruct (id_strict_eq c teamId) eqn:Hc.
  - apply id_strict_eq_true in Hc. destruct (Hall c); [left|done].
  - apply IH. intros t Ht. apply Hall. by right.
Qed.

Lemma select_nil teamId : select [] teamId = None.
Proof. reflexivity. Qed.

Lemma select_single config teamId : select [config] teamId = Some config.
Proof. unfold select. cbn. by destruct (id_strict_eq config teamId). Qed.

Lemma select_ambiguous configs teamId :
  1 < length configs →
  (∀ t, t ∈ configs → js_of_opt (id t) ≠ teamId) →
  select configs teamId = None.
Proof.
  intros Hlen Hall. unfold select. rewrite (find_id_None _ _ Hall).
  destruct configs as [|c1 [|c2 configs]]; cbn in *; [lia|lia|done].
Qed.

Lemma select_Some_length configs teamId config :
  select configs teamId = Some config → (length configs =? 0)%nat = false.
Proof. by destruct configs. Qed.

(** ** Reading the body *)

Lemma get_prop_defined body k v k' :
  get_prop body k = Ok v → ∃ v', get_prop body k' = Ok v'.
Proof. destruct body; cbn; intros; try discriminate; eauto. Qed.

(** The handler once the four members have been read. *)
Lemma post_invite_read env kv body emails role resend teamId :
  get_prop body "emails" = Ok emails →
  get_prop body "role" = Ok role →
  get_prop body "resend" = Ok resend →
  get_prop body "teamId" = Ok teamId →
  post_invite env kv body =
    if negb (truthy emails) || negb (isArray emails)
       || (array_length emails =? 0)%nat
    then
      Ok ({| rs_status := Some 400%Z;
             rs_body := Some (error_body "Emails array is required") |}, [])
    else if (length (getAllConfigs env kv) =? 0)%nat then
      Ok ({| rs_status := Some 500%Z;
             rs_body :=
               Some (error_body "No team configuration available") |}, [])
    else
      match select (getAllConfigs env kv) teamId with
      | None =>
          Ok ({| rs_status := Some 400%Z;
                 rs_body :=
                   Some (error_body "Invalid or missing team selection") |},
              [])
      | Some config =>
          let role := js_or role (JStr "reader") in
          let resend := js_or resend (JBool false) in
          match
            (sendInvitesApi emails role resend
               (token config) (accountId config)).2
          with
          | Ok result =>
              Ok ({| rs_status := Some (result_status result);
                     rs_body :=
                       Some (JObj [("success", JBool (success result));
                                   ("team", js_of_opt (name config));
                                   ("details", result_to_js result)]) |},
                  [invite_request emails role resend
                     (token config) (accountId config)])
          | Throw message =>
              Ok ({| rs_status := Some 500%Z;
                     rs_body :=
                       Some (JObj [("success", JBool false);
                                   ("team", js_of_opt (name config));
                                   ("error", JStr message)]) |},
                  [invite_request emails role resend
                     (token config) (accountId config)])
          end
      end.
Proof.
  intros He Hr Hs Ht. unfold post_invite. rewrite He, Hr, Hs, Ht. cbn.
  repeat case_match; reflexivity.
Qed.

(** The handler once a configuration has been selected. *)
Lemma post_invite_selected env kv body e es role resend teamId config :
  get_prop body "emails" = Ok (JArr (e :: es)) →
  get_prop body "role" = Ok role →
  get_prop body "resend" = Ok resend →
  get_prop body "teamId" = Ok teamId →
  select (getAllConfigs env kv) teamId = Some config →
  post_invite env kv body =
    let emails := JArr (e :: es) in
    let role := js_or role (JStr "reader") in
    let resend := js_or resend (JBool false) in
    let request :=
      invite_request emails role resend (token config) (accountId config) in
    match
      (sendInvitesApi emails role resend (token config) (accountId config)).2
    with
    | Ok result =>
        Ok ({| rs_status := Some (result_status result);
               rs_body :=
                 Some (JObj [("success", JBool (success result));
                             ("team", js_of_opt (name config));
                             ("details", result_to_js result)]) |},
            [request])
    | Throw message =>
        Ok ({| rs_status := Some 500%Z;
               rs_body :=
                 Some (JObj [("success", JBool false);
                             ("team", js_of_opt (name config));
                             ("error", JStr message)]) |},
            [request])
    end.
Proof.
  intros He Hr Hs Ht Hsel.
  rewrite (post_invite_read _ _ _ _ _ _ _ He Hr Hs Ht).
  cbn [truthy isArray array_length negb orb length Nat.eqb].
  by rewrite (select_Some_length _ _ _ Hsel), Hsel.
Qed.

(** C4. A body value other than [undefined] and [null] whose [emails]
    is absent, is not an array, or is the empty array gets status 400 and
    [{error: "Emails array is required"}]; no request is sent, and the
    reply is the same for every store and environment: neither is
    consulted. On a body value that is [undefined] or [null] the handler
    throws at the read of [body.emails], the same error for every store
    and environment, and nothing is sent either. *)
Theorem post_invite_emails_required env kv body :
  (∀ emails,
     get_prop body "emails" = Ok emails →
     emails = JUndefined ∨ isArray emails = false ∨ emails = JArr [] →
     post_invite env kv body
     = Ok ({| rs_status := Some 400%Z;
              rs_body :=
                Some (JObj [("error", JStr "Emails array is required")]) |},
           [])
     ∧ ∀ env' kv', post_invite env' kv' body = post_invite env kv body)
  ∧ (body = JUndefined ∨ body = JNull →
     ∃ message, ∀ env' kv', post_invite env' kv' body = Throw message).
Proof.
  split; [|intros [-> | ->]; eexists; reflexivity].
  intros emails He Hbad.
  destruct (get_prop_defined _ _ _ "role" He) as [role Hr].
  destruct (get_prop_defined _ _ _ "resend" He) as [resend Hs].
  destruct (get_prop_defined _ _ _ "teamId" He) as [teamId Ht].
  assert (negb (truthy emails) || negb (isArray emails)
          || (array_length emails =? 0)%nat = true) as Hguard.
  { destruct Hbad as [->|[Harr| ->]]; [done| |done].
    rewrite Harr. cbn. by rewrite orb_true_r. }
  split; [|intros env' kv'];
    rewrite !(post_invite_read _ _ _ _ _ _ _ He Hr Hs Ht), Hguard; done.
Qed.

(** C2. With a non-empty [emails] array: when no configuration is
    available the reply is 500 with
    [{error: "No team configuration available"}]; when more than one is
    available and none has the [teamId] of the body as its id, the reply
    is 400 with [{error: "Invalid or missing team selection"}]. No
    request is sent in either case. *)
Theorem post_invite_resolution_failure env kv body e es teamId :
  get_prop body "emails" = Ok (JArr (e :: es)) →
  get_prop body "teamId" = Ok teamId →
  (getAllConfigs env kv = [] →
   post_invite env kv body
   = Ok ({| rs_status := Some 500%Z;
            rs_body :=
              Some (JObj [("error", JStr "No team configuration available")])
         |}, []))
  ∧ (1 < length (getAllConfigs env kv) →
     (∀ t, t ∈ getAllConfigs env kv → js_of_opt (id t) ≠ teamId) →
     post_invite env kv body
     = Ok ({| rs_status := Some 400%Z;
              rs_body :=
                Some (JObj [("error",
                             JStr "Invalid or missing team selection")])
           |}, [])).
Proof.
  intros He Ht.
  destruct (get_prop_defined _ _ _ "role" He) as [role Hr].
  destruct (get_prop_defined _ _ _ "resend" He) as [resend Hs].
  rewrite (post_invite_read _ _ _ _ _ _ _ He Hr Hs Ht). cbn. split.
  - by intros ->.
  - intros Hlen Hall. rewrite (select_ambiguous _ _ Hlen Hall).
    destruct (getAllConfigs env kv); [cbn in Hlen; lia|done].
Qed.

(** C3. With a non-empty [emails] array and exactly one configuration
    available, a [teamId] that is absent or differs from that record's id
    still selects it: the search by id finds nothing, the single record
    is used, and the one request sent carries its token and accountId. *)
Theorem post_invite_single_team
    env kv body e es role resend teamId config :
  get_prop body "emails" = Ok (JArr (e :: es)) →
  get_prop body "role" = Ok role →
  get_prop body "resend" = Ok resend →
  get_prop body "teamId" = Ok teamId →
  getAllConfigs env kv = [config] →
  js_of_opt (id config) ≠ teamId →
  find (λ t, id_strict_eq t teamId) (getAllConfigs env kv) = None
  ∧ select (getAllConfigs env kv) teamId = Some config
  ∧ ∃ reply,
      post_invite env kv body
      = Ok (reply,
            [invite_request (JArr (e :: es))
               (js_or role (JStr "reader")) (js_or resend (JBool false))
               (token config) (accountId config)]).
Proof.
  intros He Hr Hs Ht Hone Hne. rewrite Hone.
  split; [|split; [apply select_single|]].
  - apply find_id_None. intros t ->%list_elem_of_singleton. done.
  - rewrite (post_invite_selected _ _ _ _ _ _ _ _ config He Hr Hs Ht);
      [|rewrite Hone; apply select_single].
    cbv zeta. case_match; eauto.
Qed.

(** ** Dispatch *)

Lemma sendInvitesApi_sent emails role resend token accountId :
  (sendInvitesApi emails role resend token accountId).1
  = [invite_request emails role resend token accountId].
Proof. reflexivity. Qed.

Lemma sendInvitesApi_rejected
    emails role resend token accountId response error :
  fetch (invite_request emails role resend token accountId) = Ok response →
  ok response = false →
  text response = Ok error →
  (sendInvitesApi emails role resend token accountId).2
  = Ok (Failure (status response) error).
Proof.
  intros Hfetch Hok Htext. unfold sendInvitesApi, mbind, Completion_bind.
  cbn [snd]. by rewrite Hfetch, Hok, Htext.
Qed.

Lemma sendInvitesApi_throws emails role resend token accountId message :
  fetch (invite_request emails role resend token accountId) = Throw message
  ∨ (∃ response,
       fetch (invite_request emails role resend token accountId)
       = Ok response
       ∧ (ok response = false ∧ text response = Throw message
          ∨ ok response = true ∧ json response = Throw message)) →
  (sendInvitesApi emails role resend token accountId).2 = Throw message.
Proof.
  unfold sendInvitesApi, mbind, Completion_bind. cbn [snd].
  intros [->|[response [-> [[-> ->]|[-> ->]]]]]; reflexivity.
Qed.

(** C7. When [fetch] completes with a status outside 200..299 and the
    body text [error], [sendInvitesApi] returns
    [{success: false, statusCode: status, error}] without throwing; and
    when that happens to the request of the route, the route replies
    with that status and a body whose [success] is [false] and whose
    [details] is that value. *)
Theorem post_invite_upstream_rejection :
  (∀ emails role resend tok acc response error,
     fetch (invite_request emails role resend tok acc) = Ok response →
     ok response = false →
     text response = Ok error →
     sendInvitesApi emails role resend tok acc
     = ([invite_request emails role resend tok acc],
        Ok (Failure (status response) error))
     ∧ result_to_js (Failure (status response) error)
       = JObj [("success", JBool false);
               ("statusCode", JNum (status response));
               ("error", JStr error)])
  ∧ (∀ env kv body e es role resend teamId config response error,
       get_prop body "emails" = Ok (JArr (e :: es)) →
       get_prop body "role" = Ok role →
       get_prop body "resend" = Ok resend →
       get_prop body "teamId" = Ok teamId →
       select (getAllConfigs env kv) teamId = Some config →
       fetch (invite_request (JArr (e :: es))
                (js_or role (JStr "reader")) (js_or resend (JBool false))
                (token config) (accountId config)) = Ok response →
       ok response = false →
       (100 ≤ status response ≤ 599)%Z →
       text response = Ok error →
       post_invite env kv body
       = Ok ({| rs_status := Some (status response);
                rs_body :=
                  Some (JObj [("success", JBool false);
                              ("team", js_of_opt (name config));
                              ("details",
                               JObj [("success", JBool false);
                                     ("statusCode", JNum (status response));
                                     ("error", JStr error)])]) |},
             [invite_request (JArr (e :: es))
                (js_or role (JStr "reader")) (js_or resend (JBool false))
                (token config) (accountId config)])).
Proof.
  split.
  - intros emails role resend tok acc response error Hfetch Hok Htext.
    split; [|reflexivity].
    rewrite (surjective_pairing (sendInvitesApi _ _ _ _ _)).
    by rewrite (sendInvitesApi_rejected _ _ _ _ _ _ _ Hfetch Hok Htext).
  - intros env kv body e es role resend teamId config response error
      He Hr Hs Ht Hsel Hfetch Hok Hstatus Htext.
    rewrite (post_invite_selected _ _ _ _ _ _ _ _ _ He Hr Hs Ht Hsel).
    cbv zeta.
    rewrite (sendInvitesApi_rejected _ _ _ _ _ _ _ Hfetch Hok Htext). cbn.
    destruct (Z.eqb_spec (status response) 0); [lia|done].
Qed.

(** C8. When the call fails, because [fetch] throws or because reading
    the response throws, [sendInvitesApi] throws the same error; and
    when that happens to the request of the route, the route catches it:
    the handler completes with status 500 and
    [{success: false, team, error}] where [team] is the name of the
    selected team and [error] the message of the error. *)
Theorem post_invite_transport_failure :
  (∀ emails role resend tok acc message,
     fetch (invite_request emails role resend tok acc) = Throw message
     ∨ (∃ response,
          fetch (invite_request emails role resend tok acc) = Ok response
          ∧ (ok response = false ∧ text response = Throw message
             ∨ ok response = true ∧ json response = Throw message)) →
     sendInvitesApi emails role resend tok acc
     = ([invite_request emails role resend tok acc], Throw message))
  ∧ (∀ env kv body e es role resend teamId config message,
       get_prop body "emails" = Ok (JArr (e :: es)) →
       get_prop body "role" = Ok role →
       get_prop body "resend" = Ok resend →
       get_prop body "teamId" = Ok teamId →
       select (getAllConfigs env kv) teamId = Some config →
       (sendInvitesApi (JArr (e :: es))
          (js_or role (JStr "reader")) (js_or resend (JBool false))
          (token config) (accountId config)).2 = Throw message →
       post_invite env kv body
       = Ok ({| rs_status := Some 500%Z;
                rs_body :=
                  Some (JObj [("success", JBool false);
                              ("team", js_of_opt (name config));
                              ("error", JStr message)]) |},
             [invite_request (JArr (e :: es))
                (js_or role (JStr "reader")) (js_or resend (JBool false))
                (token config) (accountId config)])).
Proof.
  split.
  - intros emails role resend tok acc message Hfail.
    rewrite (surjective_pairing (sendInvitesApi _ _ _ _ _)).
    by rewrite (sendInvitesApi_throws _ _ _ _ _ _ Hfail).
  - intros env kv body e es role resend teamId config message
      He Hr Hs Ht Hsel Hsend.
    rewrite (post_invite_selected _ _ _ _ _ _ _ _ _ He Hr Hs Ht Hsel).
    cbv zeta. by rewrite Hsend.
Qed.

(** ** Ordering of the list *)

Section ordering.

(** [localeCompare] is a consistent comparator: exchanging the arguments
    flips the sign, and the order is transitive. The empty string sorts
    first; it may tie with a string of ignorable characters. *)
Hypothesis localeCompare_flip :
  ∀ a b, Z.sgn (localeCompare b a) = (- Z.sgn (localeCompare a b))%Z.
Hypothesis localeCompare_trans :
  ∀ a b c,
    (localeCompare a b ≤ 0)%Z → (localeCompare b c ≤ 0)%Z →
    (localeCompare a c ≤ 0)%Z.
Hypothesis localeCompare_empty : ∀ s, (localeCompare "" s ≤ 0)%Z.

Local Instance name_le_total : Total name_le.
Proof.
  intros a b. unfold name_le.
  pose proof (localeCompare_flip (or_str (name a) "") (or_str (name b) "")).
  lia.
Qed.

Local Instance name_le_trans : Transitive name_le.
Proof. intros a b c. unfold name_le. apply localeCompare_trans. Qed.

Lemma loadTeams_StronglySorted kv : StronglySorted name_le (loadTeams kv).
Proof. apply StronglySorted_sort_by; apply _. Qed.

Lemma StronglySorted_lookup {A} (R : relation A) (l : list A) i j a b :
  StronglySorted R l → i < j → l !! i = Some a → l !! j = Some b → R a b.
Proof.
  intros Hl. revert i j. induction Hl as [|x l Hl IH Hx]; intros i j Hij Hi Hj.
  { by rewrite lookup_nil in Hi. }
  destruct j as [|j]; [lia|]. cbn in Hj. destruct i as [|i]; cbn in Hi.
  - injection Hi as ->. rewrite Forall_forall in Hx. apply Hx.
    by eapply list_elem_of_lookup_2.
  - apply (IH i j); [lia|done..].
Qed.

(** C5. [loadTeams] returns the stored records, each as often as it is
    stored, in non-decreasing order of [name || ""] under the comparator:
    of two records of the list the earlier never compares greater than
    the later. A record whose name is empty or absent stands before
    every record with a non-empty name, unless that name ties with the
    empty string under the comparator. *)
Theorem loadTeams_sorted kv :
  loadTeams kv ≡ₚ (map_to_list kv).*2
  ∧ Sorted name_le (loadTeams kv)
  ∧ (∀ i j a b,
       i < j → loadTeams kv !! i = Some a → loadTeams kv !! j = Some b →
       (localeCompare (or_str (name a) "") (or_str (name b) "") ≤ 0)%Z)
  ∧ (∀ i j a b,
       loadTeams kv !! i = Some a → loadTeams kv !! j = Some b →
       or_str (name a) "" = "" → or_str (name b) "" ≠ "" →
       i < j ∨ localeCompare "" (or_str (name b) "") = 0%Z).
Proof.
  pose proof (loadTeams_StronglySorted kv) as Hsorted.
  split; [apply loadTeams_Permutation|].
  split; [by apply StronglySorted_Sorted|].
  split.
  - intros i j a b Hij Hi Hj.
    apply (StronglySorted_lookup name_le _ i j a b Hsorted Hij Hi Hj).
  - intros i j a b Hi Hj Ha Hb.
    destruct (Nat.lt_trichotomy i j) as [Hij|[->|Hji]]; [by left| |right].
    + rewrite Hi in Hj. injection Hj as ->. done.
    + pose proof
        (StronglySorted_lookup name_le _ j i b a Hsorted Hji Hj Hi) as Hba.
      unfold name_le in Hba. rewrite Ha in Hba.
      pose proof (localeCompare_empty (or_str (name b) "")).
      pose proof (localeCompare_flip "" (or_str (name b) "")).
      lia.
Qed.

End ordering.

(** ** Deno KV limits *)

Lemma check_key_cases x :
  (key_bytes x ≤ max_key_bytes)%Z ∧ check_key x = Ok tt
  ∨ (max_key_bytes < key_bytes x)%Z ∧ ∃ message, check_key x = Throw message.
Proof.
  unfold check_key. destruct (Z.ltb_spec max_key_bytes (key_bytes x)).
  - right. eauto.
  - by left.
Qed.

Lemma kv_set_check_cases x value :
  ((key_bytes x ≤ max_key_bytes)%Z
   ∧ (value_size value ≤ max_value_bytes)%Z
   ∧ kv_set_check x value = Ok tt)
  ∨ (((max_key_bytes < key_bytes x)%Z
      ∨ (max_value_bytes < value_size value)%Z)
     ∧ ∃ message, kv_set_check x value = Throw message).
Proof.
  unfold kv_set_check, mbind, Completion_bind.
  destruct (check_key_cases x) as [[Hkey ->]|[Hkey [message ->]]];
    [|right; eauto].
  destruct (Z.ltb_spec max_value_bytes (value_size value)).
  - right. eauto.
  - by left.
Qed.

Lemma uuid_from_escaped_length i s :
  uuid_from i s = true → escaped_length s = Z.of_nat (String.length s).
Proof.
  revert i. induction s as [|c s IH]; intros i; [done|].
  cbn [uuid_from escaped_length String.length].
  intros [Hc Hs]%andb_true_iff. rewrite (IH _ Hs).
  assert (Ascii.eqb c zero = false) as ->; [|lia].
  apply Ascii.eqb_neq. intros ->. by case_bool_decide.
Qed.

(** The key of a generated id is never too long. *)
Lemma is_uuid_check_key uuid : is_uuid uuid = true → check_key uuid = Ok tt.
Proof.
  unfold is_uuid. intros [Hlen Hchars]%andb_true_iff.
  apply Nat.eqb_eq in Hlen.
  destruct (check_key_cases uuid) as [[_ ?]|[Hlong _]]; [done|].
  unfold key_bytes, max_key_bytes in Hlong.
  rewrite (uuid_from_escaped_length _ _ Hchars), Hlen in Hlong. lia.
Qed.

(** ** The store invariant *)

Lemma kv_wf_empty : kv_wf ∅.
Proof. apply map_Forall_empty. Qed.

(** [saveTeam] either throws, or returns the team with its id and the
    store with the team under that id. *)
Lemma saveTeam_cases uuid kv team :
  (∃ message, saveTeam uuid kv team = Throw message)
  ∨ ∃ team',
      saveTeam uuid kv team
      = Ok (team', <[or_str (id team) uuid := team']> kv)
      ∧ team' = (if falsy (id team) then set_id team uuid else team)
      ∧ id team' = Some (or_str (id team) uuid)
      ∧ kv_set_check (or_str (id team) uuid) (team_to_js team') = Ok tt.
Proof.
  unfold saveTeam, mbind, Completion_bind.
  set (team' := if falsy (id team) then set_id team uuid else team).
  assert (id team' = Some (or_str (id team) uuid)) as Hid.
  { unfold team', falsy, or_str. destruct (id team) as [i|] eqn:Hi; [|done].
    destruct (i =? ""); [done|]. by rewrite Hi. }
  assert (or_str (id team') uuid = or_str (id team) uuid) as ->.
  { rewrite Hid. unfold or_str at 1.
    destruct (String.eqb_spec (or_str (id team) uuid) "") as [Hempty|];
      [|done].
    rewrite Hempty. unfold or_str in Hempty.
    destruct (id team) as [i|]; [|done].
    by destruct (String.eqb_spec i ""). }
  destruct (kv_set_check_cases (or_str (id team) uuid) (team_to_js team'))
    as [(_ & _ & Hok)|[_ [message Hthrow]]].
  - rewrite Hok. right. by exists team'.
  - rewrite Hthrow. left. eauto.
Qed.

Lemma kv_wf_saveTeam uuid kv team team' kv' :
  kv_wf kv → saveTeam uuid kv team = Ok (team', kv') → kv_wf kv'.
Proof.
  intros Hwf Hsave.
  destruct (saveTeam_cases uuid kv team)
    as [[message Hthrow]|(t & Heq & _ & Hid & _)]; [congruence|].
  rewrite Heq in Hsave. injection Hsave as <- <-.
  by apply map_Forall_insert_2.
Qed.

Lemma kv_wf_deleteTeam x kv : kv_wf kv → kv_wf (deleteTeam x kv).
Proof. apply map_Forall_delete. Qed.

(** The store after [DELETE /api/teams/:id]: as it was, or without the
    entry of the id. *)
Lemma delete_teams_store kv x :
  (delete_teams kv x).2 = kv
  ∨ ∃ i, x = Some i ∧ (delete_teams kv x).2 = deleteTeam i kv.
Proof.
  unfold delete_teams. destruct x as [i|]; [|by left].
  destruct (i =? ""); [by left|].
  destruct (check_key i); [right; eauto|by left].
Qed.

Lemma kv_wf_delete_teams kv x : kv_wf kv → kv_wf (delete_teams kv x).2.
Proof.
  intros Hwf. destruct (delete_teams_store kv x) as [->|(i & _ & ->)];
    [done|by apply kv_wf_deleteTeam].
Qed.

(** ** Adding a team *)

Lemma is_uuid_nonempty uuid : is_uuid uuid = true → uuid ≠ "".
Proof. by intros Huuid ->. Qed.

Lemma post_teams_rejected uuid kv (body : TeamsBody) :
  falsy (tb_token body) = true ∨ falsy (tb_accountId body) = true →
  post_teams uuid kv body
  = (Ok {| rs_status := Some 400%Z;
           rs_body :=
             Some (error_body "Token and Account ID are required") |},
     kv).
Proof.
  unfold post_teams, falsy.
  destruct (tb_token body) as [tok|], (tb_accountId body) as [acc|];
    intros [H|H]; try done; rewrite H; by rewrite ?orb_true_r.
Qed.

(** The handler on a body with a token and an accountId: what
    [kv.set] does decides. *)
Lemma post_teams_accepted uuid kv (body : TeamsBody) tok acc :
  tb_token body = Some tok →
  tb_accountId body = Some acc →
  tok ≠ "" → acc ≠ "" →
  post_teams uuid kv body
  = let team := added_team tok acc (tb_name body) uuid in
    match kv_set_check uuid (team_to_js team) with
    | Throw message => (Throw message, kv)
    | Ok _ =>
        (Ok {| rs_status := Some 201%Z;
               rs_body :=
                 Some (JObj [("success", JBool true);
                             ("team", team_to_js team)]) |},
         <[uuid := team]> kv)
    end.
Proof.
  intros Htok Hacc Htok_ne%String.eqb_neq Hacc_ne%String.eqb_neq.
  unfold post_teams, saveTeam, mbind, Completion_bind.
  rewrite Htok, Hacc, Htok_ne, Hacc_ne. cbn.
  unfold added_team.
  destruct (uuid =? ""); by destruct (kv_set_check uuid _).
Qed.

(** The three outcomes of the handler: a 400 reply with the store as it
    was, an error with the store as it was, or a 201 reply with the
    added team stored under the generated id. *)
Lemma post_teams_outcome uuid kv (body : TeamsBody) :
  (generates body = false
   ∧ post_teams uuid kv body
     = (Ok {| rs_status := Some 400%Z;
              rs_body :=
                Some (error_body "Token and Account ID are required") |},
        kv))
  ∨ (generates body = true
     ∧ ∃ message, post_teams uuid kv body = (Throw message, kv))
  ∨ (generates body = true
     ∧ ∃ tok acc,
         tb_token body = Some tok ∧ tb_accountId body = Some acc
         ∧ tok ≠ "" ∧ acc ≠ ""
         ∧ kv_set_check uuid
             (team_to_js (added_team tok acc (tb_name body) uuid)) = Ok tt
         ∧ post_teams uuid kv body
           = (Ok {| rs_status := Some 201%Z;
                    rs_body :=
                      Some (JObj [("success", JBool true);
                                  ("team",
                                   team_to_js
                                     (added_team tok acc (tb_name body)
                                        uuid))]) |},
              <[uuid := added_team tok acc (tb_name body) uuid]> kv)).
Proof.
  unfold generates.
  destruct (falsy (tb_token body) || falsy (tb_accountId body)) eqn:Hfalsy.
  { left. split; [done|]. apply post_teams_rejected.
    by apply orb_true_iff. }
  right. apply orb_false_iff in Hfalsy as [Htok Hacc]. unfold falsy in *.
  destruct (tb_token body) as [tok|] eqn:Etok; [|done].
  destruct (tb_accountId body) as [acc|] eqn:Eacc; [|done].
  apply String.eqb_neq in Htok, Hacc.
  rewrite (post_teams_accepted uuid kv body tok acc) by done. cbv zeta.
  destruct (kv_set_check_cases uuid
              (team_to_js (added_team tok acc (tb_name body) uuid)))
    as [(_ & _ & Hok)|[_ [message Hthrow]]].
  - right. split; [done|]. exists tok, acc. by rewrite Hok.
  - left. split; [done|]. rewrite Hthrow. eauto.
Qed.

(** Only the key [uuid] can change. *)
Lemma post_teams_other_keys uuid kv (body : TeamsBody) k :
  k ≠ uuid → (post_teams uuid kv body).2 !! k = kv !! k.
Proof.
  intros Hk.
  destruct (post_teams_outcome uuid kv body)
    as [[_ ->]|[[_ [message ->]]|[_ (tok & acc & _ & _ & _ & _ & _ & ->)]]];
    [done..|].
  by apply lookup_insert_ne.
Qed.

Lemma kv_wf_post_teams uuid kv (body : TeamsBody) :
  kv_wf kv → kv_wf (post_teams uuid kv body).2.
Proof.
  intros Hwf.
  destruct (post_teams_outcome uuid kv body)
    as [[_ ->]|[[_ [message ->]]|[_ (tok & acc & _ & _ & _ & _ & _ & ->)]]];
    [done..|].
  by apply map_Forall_insert_2.
Qed.

(** The handler on any body value agrees with the handler on a typed
    body: the same reply or error, and the entry written is the team
    that the store gains. *)
Lemma post_teams_value_typed uuid kv (body : TeamsBody) :
  (post_teams_value uuid (body_value body)).1 = (post_teams uuid kv body).1
  ∧ ((post_teams_value uuid (body_value body)).2 = []
     ∧ (post_teams uuid kv body).2 = kv
     ∨ ∃ team,
         (post_teams_value uuid (body_value body)).2
         = [(uuid, team_to_js team)]
         ∧ (post_teams uuid kv body).2 = <[uuid := team]> kv).
Proof.
  assert (∀ o, truthy (js_of_opt o) = negb (falsy o)) as Htruthy.
  { by intros [s|]. }
  assert (∀ tok acc,
            new_team (JStr tok) (JStr acc) (js_of_opt (tb_name body)) uuid
            = team_to_js (added_team tok acc (tb_name body) uuid)) as Hnew.
  { intros tok acc. unfold new_team, team_to_js, added_team, js_or. cbn.
    destruct (tb_name body) as [n|]; cbn; [|done].
    by destruct (n =? ""). }
  unfold post_teams_value, body_value. cbn [destructure assoc app].
  cbn [String.eqb Ascii.eqb Bool.eqb]. rewrite !Htruthy, !negb_involutive.
  destruct (falsy (tb_token body) || falsy (tb_accountId body)) eqn:Hfalsy.
  { rewrite post_teams_rejected by by apply orb_true_iff. cbn. auto. }
  apply orb_false_iff in Hfalsy as [Htok Hacc]. unfold falsy in Htok, Hacc.
  destruct (tb_token body) as [tok|] eqn:Etok; [|done].
  destruct (tb_accountId body) as [acc|] eqn:Eacc; [|done].
  apply String.eqb_neq in Htok, Hacc.
  rewrite (post_teams_accepted uuid kv body tok acc) by done.
  cbv zeta. cbn [js_of_opt]. rewrite Hnew.
  destruct (kv_set_check uuid _); cbn; eauto.
Qed.

(** ** Deleting *)

(** C6. Deleting the id [x] twice, for an [x] whose key Deno KV accepts:
    the route replies [{success: true}] both times, also the second
    time, when nothing is stored under [x]. For an [x] whose key is too
    long [kv.delete] throws: the handler throws and the store stays as it
    is. After a completed delete nothing is stored under [x], no record
    of the list has the id [x], and every other entry is as before; a
    second one leaves the store as the first left it. *)
Theorem delete_teams_idempotent kv x :
  (x ≠ "" → (key_bytes x ≤ max_key_bytes)%Z →
   delete_teams kv (Some x)
   = (Ok {| rs_status := None;
            rs_body := Some (JObj [("success", JBool true)]) |},
      deleteTeam x kv)
   ∧ delete_teams (deleteTeam x kv) (Some x)
     = (Ok {| rs_status := None;
              rs_body := Some (JObj [("success", JBool true)]) |},
        deleteTeam x kv))
  ∧ (x ≠ "" → (max_key_bytes < key_bytes x)%Z →
     ∃ message, delete_teams kv (Some x) = (Throw message, kv))
  ∧ deleteTeam x kv !! x = None
  ∧ (∀ k, k ≠ x → deleteTeam x kv !! k = kv !! k)
  ∧ deleteTeam x (deleteTeam x kv) = deleteTeam x kv
  ∧ (kv_wf kv → ∀ t, t ∈ loadTeams (deleteTeam x kv) → id t ≠ Some x).
Proof.
  unfold delete_teams. split; [|split; [|split; [|split; [|split]]]].
  - intros Hx%String.eqb_neq Hkey. rewrite Hx.
    destruct (check_key_cases x) as [[_ ->]|[? _]]; [|lia].
    unfold deleteTeam. by rewrite delete_delete_eq.
  - intros Hx%String.eqb_neq Hkey. rewrite Hx.
    destruct (check_key_cases x) as [[? _]|[_ [message ->]]]; [lia|eauto].
  - apply lookup_delete_eq.
  - intros k Hk. by apply lookup_delete_ne.
  - apply delete_delete_eq.
  - intros Hwf t [k Hk]%elem_of_loadTeams Hid.
    pose proof (kv_wf_deleteTeam x kv Hwf k t Hk) as Hkey. cbn in Hkey.
    assert (k = x) as -> by congruence.
    unfold deleteTeam in Hk. by rewrite lookup_delete_eq in Hk.
Qed.

(** ** Creating a team *)

(** C9. [POST /api/teams] on a body value that can be destructured, with
    a generated id. With truthy [token] and [accountId] and a record that
    Deno KV accepts, the route replies 201 with [{success: true, team}]:
    [team] carries the given token and accountId, the given name when
    that is truthy and ["Team"] otherwise, and the generated id, which is
    not empty; this record is the one entry written, under the generated
    id. With a falsy [token] or [accountId] the route replies 400 with
    [{error: "Token and Account ID are required"}] and writes nothing.
    When Deno KV refuses the record, or the body is [undefined] or
    [null], the handler throws and writes nothing. For a body with
    members typed as [interface Team] types them the entry written is the
    team the store gains, and the list of the new store contains it. *)
Theorem post_teams_creates uuid body :
  is_uuid uuid = true →
  (∀ token accountId name,
     destructure body = Ok (token, accountId, name) →
     (truthy token = true → truthy accountId = true →
      (value_size (new_team token accountId name uuid) ≤ max_value_bytes)%Z →
      post_teams_value uuid body
      = (Ok {| rs_status := Some 201%Z;
               rs_body :=
                 Some (JObj [("success", JBool true);
                             ("team",
                              JObj [("token", token);
                                    ("accountId", accountId);
                                    ("name",
                                     if truthy name then name
                                     else JStr "Team");
                                    ("id", JStr uuid)])]) |},
         [(uuid,
           JObj [("token", token); ("accountId", accountId);
                 ("name", if truthy name then name else JStr "Team");
                 ("id", JStr uuid)])])
      ∧ uuid ≠ "")
     ∧ (truthy token = false ∨ truthy accountId = false →
        post_teams_value uuid body
        = (Ok {| rs_status := Some 400%Z;
                 rs_body :=
                   Some (JObj [("error",
                                JStr "Token and Account ID are required")])
              |}, []))
     ∧ (truthy token = true → truthy accountId = true →
        (max_value_bytes < value_size (new_team token accountId name uuid))%Z →
        ∃ message, post_teams_value uuid body = (Throw message, [])))
  ∧ (body = JUndefined ∨ body = JNull →
     ∃ message, post_teams_value uuid body = (Throw message, []))
  ∧ (∀ kv (typed : TeamsBody),
       body = body_value typed →
       (post_teams uuid kv typed).1 = (post_teams_value uuid body).1
       ∧ ((post_teams_value uuid body).2 = []
          ∧ (post_teams uuid kv typed).2 = kv
          ∨ ∃ team,
              (post_teams_value uuid body).2 = [(uuid, team_to_js team)]
              ∧ (post_teams uuid kv typed).2 = <[uuid := team]> kv
              ∧ (post_teams uuid kv typed).2 !! uuid = Some team
              ∧ team ∈ loadTeams (post_teams uuid kv typed).2)).
Proof.
  intros Huuid. pose proof (is_uuid_check_key uuid Huuid) as Hkey.
  split; [|split].
  - intros token accountId name Hbody. unfold post_teams_value.
    rewrite Hbody. unfold kv_set_check, mbind, Completion_bind.
    rewrite Hkey. split; [|split].
    + intros -> -> Hsize. cbn [negb orb].
      destruct (Z.ltb_spec max_value_bytes
                  (value_size (new_team token accountId name uuid)))
        as [?|_]; [lia|].
      split; [reflexivity|by apply is_uuid_nonempty].
    + intros [-> | ->]; by rewrite ?orb_true_r.
    + intros -> -> Hsize. cbn [negb orb].
      destruct (Z.ltb_spec max_value_bytes
                  (value_size (new_team token accountId name uuid)))
        as [_|?]; [eauto|lia].
  - intros [-> | ->]; eexists; reflexivity.
  - intros kv typed ->.
    destruct (post_teams_value_typed uuid kv typed) as [Hreply Hstore].
    split; [done|].
    destruct Hstore as [?|(team & Hwritten & Hstored)]; [by left|right].
    exists team. rewrite Hstored. split; [done|]. split; [done|].
    split; [apply lookup_insert_eq|].
    apply elem_of_loadTeams. exists uuid. apply lookup_insert_eq.
Qed.

(** C10. [POST /api/teams] reads [token], [accountId] and [name] only:
    two bodies that differ in their [id] alone get the same reply and
    the same entry written.
    Every entry the handler writes is under the generated id and carries
    it as its [id], so the only key of the store a call can change is the
    generated one. When the generated id is not in use, as a random UUID
    is not, every stored record is still stored after the call: a call
    that replies 201 adds one entry, under the generated id, and every
    other call, a 400 reply or an error, leaves the store as it was. *)
Theorem post_teams_never_overwrites uuid kv (typed : TeamsBody) :
  (∀ members members',
     (∀ k, k ≠ "id" → assoc k members = assoc k members') →
     post_teams_value uuid (JObj members)
     = post_teams_value uuid (JObj members'))
  ∧ (∀ body k value,
       (k, value) ∈ (post_teams_value uuid body).2 →
       k = uuid ∧ get_prop value "id" = Ok (JStr uuid))
  ∧ (∀ others,
       post_teams uuid kv (with_others typed others)
       = post_teams uuid kv typed)
  ∧ (∀ k, k ≠ uuid → (post_teams uuid kv typed).2 !! k = kv !! k)
  ∧ (kv !! uuid = None →
     (∀ k t, kv !! k = Some t → (post_teams uuid kv typed).2 !! k = Some t)
     ∧ (∀ reply,
          (post_teams uuid kv typed).1 = Ok reply →
          rs_status reply = Some 201%Z →
          size (post_teams uuid kv typed).2 = S (size kv)
          ∧ ∃ team,
              (post_teams uuid kv typed).2 !! uuid = Some team
              ∧ id team = Some uuid)
     ∧ ((∀ reply,
           (post_teams uuid kv typed).1 = Ok reply →
           rs_status reply ≠ Some 201%Z)
        → (post_teams uuid kv typed).2 = kv)).
Proof.
  split; [|split; [|split; [done|split]]].
  - intros members members' Hsame. unfold post_teams_value, destructure.
    by rewrite !(Hsame _) by discriminate.
  - intros body k value. unfold post_teams_value.
    destruct (destructure body) as [[[token accountId] name]|];
      [|by intros ?%elem_of_nil].
    destruct (_ || _); [by intros ?%elem_of_nil|].
    destruct (kv_set_check _ _); [|by intros ?%elem_of_nil].
    by intros [= -> ->]%list_elem_of_singleton.
  - apply post_teams_other_keys.
  - intros Hfresh. split; [|split].
    + intros k t Hk. rewrite post_teams_other_keys; [done|congruence].
    + intros reply Hreply Hstatus.
      destruct (post_teams_outcome uuid kv typed)
        as [[_ Heq]|[[_ [message Heq]]
                    |[_ (tok & acc & _ & _ & _ & _ & _ & Heq)]]];
        rewrite Heq in Hreply |- *; cbn in *.
      * injection Hreply as <-. done.
      * done.
      * split; [by apply map_size_insert_None|].
        eexists. split; [apply lookup_insert_eq|done].
    + intros Hother.
      destruct (post_teams_outcome uuid kv typed)
        as [[_ Heq]|[[_ [message Heq]]
                    |[_ (tok & acc & _ & _ & _ & _ & _ & Heq)]]];
        rewrite Heq in Hother |- *; [done..|].
      by destruct (Hother _ eq_refl).
Qed.

(** ** Generated ids along a run *)

Lemma keys_generated_post_teams uuids n kv (body : TeamsBody) :
  keys_generated uuids n kv →
  keys_generated uuids (if generates body then S n else n)
    (post_teams (uuids n) kv body).2.
Proof.
  intros Hkeys k Hk. destruct (decide (k = uuids n)) as [->|Hne].
  - destruct (post_teams_outcome (uuids n) kv body)
      as [[Hgen Heq]|[[Hgen [message Heq]]|[Hgen _]]].
    + rewrite Heq in Hk. rewrite Hgen. by apply Hkeys.
    + rewrite Hgen. exists n. split; [lia|done].
    + rewrite Hgen. exists n. split; [lia|done].
  - rewrite (post_teams_other_keys _ _ _ _ Hne) in Hk.
    destruct (Hkeys k Hk) as (i & Hi & ->). exists i.
    split; [destruct (generates body); lia|done].
Qed.

Lemma keys_generated_delete_teams uuids n kv x :
  keys_generated uuids n kv → keys_generated uuids n (delete_teams kv x).2.
Proof.
  intros Hkeys k Hk. apply Hkeys.
  destruct (delete_teams_store kv x) as [Heq|(i & _ & Heq)];
    rewrite Heq in Hk; [done|]. unfold deleteTeam in Hk.
  destruct (decide (i = k)) as [->|Hne].
  - rewrite lookup_delete_eq in Hk. by destruct Hk.
  - by rewrite lookup_delete_ne in Hk.
Qed.

(** When [crypto.randomUUID()] never returns the same id twice and the
    keys in use were generated, the next id is not in use after any run
    of requests. *)
Lemma serve_next_id_fresh uuids requests n kv :
  (∀ i j, uuids i = uuids j → i = j) →
  keys_generated uuids n kv →
  keys_generated uuids (serve uuids n kv requests).1
    (serve uuids n kv requests).2
  ∧ (serve uuids n kv requests).2 !! uuids (serve uuids n kv requests).1
    = None.
Proof.
  intros Hinj. revert n kv.
  induction requests as [|[body|x] requests IH]; intros n kv Hkeys.
  - split; [done|]. cbn. destruct (kv !! uuids n) eqn:Hn; [|done].
    destruct (Hkeys (uuids n)) as (i & Hi & Heq); [by rewrite Hn|].
    apply Hinj in Heq. lia.
  - apply IH. by apply keys_generated_post_teams.
  - apply IH. by apply keys_generated_delete_teams.
Qed.

(** ** Selection by id *)

Lemma select_elem_of configs teamId config :
  select configs teamId = Some config → config ∈ configs.
Proof.
  unfold select. destruct (find _ configs) as [t|] eqn:Hfind.
  - intros [= <-]. apply find_some in Hfind as [Hin _].
    by apply list_elem_of_In.
  - destruct configs as [|c [|c' configs]]; cbn; try done.
    intros [= <-]. by left.
Qed.

Lemma getAllConfigs_nonempty_store env kv :
  kv ≠ ∅ → getAllConfigs env kv = loadTeams kv.
Proof. intros Hkv. apply getAllConfigs_stored. by rewrite loadTeams_nil. Qed.

(** In a store that keeps every record under its own id, the search by
    id finds the record stored under that id. *)
Lemma find_stored_id kv k t :
  kv_wf kv → kv !! k = Some t →
  find (λ t', id_strict_eq t' (JStr k)) (loadTeams kv) = Some t.
Proof.
  intros Hwf Hk.
  destruct (find _ (loadTeams kv)) as [t'|] eqn:Hfind.
  - apply find_some in Hfind as [Hin Hid].
    apply list_elem_of_In, elem_of_loadTeams in Hin as [k' Hk'].
    apply id_strict_eq_true in Hid. rewrite (Hwf k' t' Hk') in Hid.
    cbn in Hid. injection Hid as ->. congruence.
  - assert (In t (loadTeams kv)) as Hin.
    { apply list_elem_of_In, elem_of_loadTeams. by exists k. }
    apply (find_none _ _ Hfind) in Hin.
    assert (id_strict_eq t (JStr k) = true) as Htrue.
    { apply id_strict_eq_true. by rewrite (Hwf k t Hk). }
    congruence.
Qed.

Lemma select_stored_id env kv k t :
  kv_wf kv → kv !! k = Some t →
  select (getAllConfigs env kv) (JStr k) = Some t.
Proof.
  intros Hwf Hk. rewrite getAllConfigs_nonempty_store.
  - unfold select. by rewrite (find_stored_id kv k t Hwf Hk).
  - intros ->. by rewrite lookup_empty in Hk.
Qed.

(** X1. With a non-empty [emails] array and a store that keeps every
    record under its own id, a [teamId] that is the id of a stored team
    selects that team, however many teams are stored and whatever the
    environment holds: the one request sent carries its token and
    accountId. *)
Theorem post_invite_explicit_selection
    env kv body e es role resend k t :
  kv_wf kv →
  kv !! k = Some t →
  get_prop body "emails" = Ok (JArr (e :: es)) →
  get_prop body "role" = Ok role →
  get_prop body "resend" = Ok resend →
  get_prop body "teamId" = Ok (JStr k) →
  select (getAllConfigs env kv) (JStr k) = Some t
  ∧ ∃ reply,
      post_invite env kv body
      = Ok (reply,
            [invite_request (JArr (e :: es))
               (js_or role (JStr "reader")) (js_or resend (JBool false))
               (token t) (accountId t)]).
Proof.
  intros Hwf Hk He Hr Hs Ht.
  pose proof (select_stored_id env kv k t Hwf Hk) as Hsel.
  split; [exact Hsel|].
  rewrite (post_invite_selected _ _ _ _ _ _ _ _ _ He Hr Hs Ht Hsel).
  cbv zeta. case_match; eauto.
Qed.

(** X2. When [fetch] completes with a status in 200..299 and a body that
    parses as JSON to [data], the route replies 200 with
    [{success: true, team, details: {success: true, data}}], where [team]
    is the name of the selected team. *)
Theorem post_invite_success
    env kv body e es role resend teamId config response data :
  get_prop body "emails" = Ok (JArr (e :: es)) →
  get_prop body "role" = Ok role →
  get_prop body "resend" = Ok resend →
  get_prop body "teamId" = Ok teamId →
  select (getAllConfigs env kv) teamId = Some config →
  fetch (invite_request (JArr (e :: es))
           (js_or role (JStr "reader")) (js_or resend (JBool false))
           (token config) (accountId config)) = Ok response →
  (200 ≤ status response ≤ 299)%Z →
  json response = Ok data →
  post_invite env kv body
  = Ok ({| rs_status := Some 200%Z;
           rs_body :=
             Some (JObj [("success", JBool true);
                         ("team", js_of_opt (name config));
                         ("details",
                          JObj [("success", JBool true);
                                ("data", data)])]) |},
        [invite_request (JArr (e :: es))
           (js_or role (JStr "reader")) (js_or resend (JBool false))
           (token config) (accountId config)]).
Proof.
  intros He Hr Hs Ht Hsel Hfetch Hstatus Hjson.
  rewrite (post_invite_selected _ _ _ _ _ _ _ _ _ He Hr Hs Ht Hsel).
  cbv zeta. unfold sendInvitesApi, mbind, Completion_bind. cbn [snd].
  rewrite Hfetch. unfold ok.
  destruct (Z.leb_spec 200 (status response)); [|lia].
  destruct (Z.leb_spec (status response) 299); [|lia].
  cbn. by rewrite Hjson.
Qed.

(** X3. On a body value that is [undefined] or [null] the handler of
    [POST /api/invite] throws. Whenever it completes, the body value was
    neither, the reply has its status and its body set, and at most one
    request was sent. *)
Theorem post_invite_completes env kv body :
  (body = JUndefined ∨ body = JNull →
   ∃ message, post_invite env kv body = Throw message)
  ∧ (∀ reply sent,
       post_invite env kv body = Ok (reply, sent) →
       body ≠ JUndefined ∧ body ≠ JNull
       ∧ (length sent ≤ 1)%nat
       ∧ ∃ status reply_body,
           reply = {| rs_status := Some status; rs_body := Some reply_body |}).
Proof.
  split.
  - intros [-> | ->]; eexists; reflexivity.
  - intros reply sent Hpost.
    assert (body ≠ JUndefined ∧ body ≠ JNull) as [Hu Hn].
    { split; intros ->; discriminate. }
    split; [done|]. split; [done|].
    assert (∃ emails, get_prop body "emails" = Ok emails) as [emails He]
      by (destruct body; cbn; eauto; done).
    destruct (get_prop_defined _ _ _ "role" He) as [role Hr].
    destruct (get_prop_defined _ _ _ "resend" He) as [resend Hs].
    destruct (get_prop_defined _ _ _ "teamId" He) as [teamId Ht].
    rewrite (post_invite_read _ _ _ _ _ _ _ He Hr Hs Ht) in Hpost.
    cbv zeta in Hpost.
    repeat case_match; injection Hpost as <- <-;
      (split; [cbn; lia|eauto]).
Qed.

(** X4. A request is only ever sent for a non-empty [emails] array and
    with the credentials of an available configuration: every request
    the handler sends is the invite request built from the [emails] of
    the body, its [role] or ["reader"], its [resend] or [false], and the
    token and accountId of a record of [getAllConfigs]. *)
Theorem post_invite_sent_from_config env kv body reply sent request :
  post_invite env kv body = Ok (reply, sent) →
  request ∈ sent →
  ∃ e es role resend config,
    get_prop body "emails" = Ok (JArr (e :: es))
    ∧ get_prop body "role" = Ok role
    ∧ get_prop body "resend" = Ok resend
    ∧ config ∈ getAllConfigs env kv
    ∧ request
      = invite_request (JArr (e :: es))
          (js_or role (JStr "reader")) (js_or resend (JBool false))
          (token config) (accountId config).
Proof.
  intros Hpost Hin.
  assert (∃ emails, get_prop body "emails" = Ok emails) as [emails He].
  { destruct body; cbn; eauto; discriminate. }
  destruct (get_prop_defined _ _ _ "role" He) as [role Hr].
  destruct (get_prop_defined _ _ _ "resend" He) as [resend Hs].
  destruct (get_prop_defined _ _ _ "teamId" He) as [teamId Ht].
  rewrite (post_invite_read _ _ _ _ _ _ _ He Hr Hs Ht) in Hpost.
  destruct (negb (truthy emails) || negb (isArray emails)
            || (array_length emails =? 0)%nat) eqn:Hguard.
  { injection Hpost as _ <-. by apply elem_of_nil in Hin. }
  destruct (length (getAllConfigs env kv) =? 0)%nat.
  { injection Hpost as _ <-. by apply elem_of_nil in Hin. }
  destruct (select (getAllConfigs env kv) teamId) as [config|] eqn:Hsel.
  2: { injection Hpost as _ <-. by apply elem_of_nil in Hin. }
  assert (∃ e es, emails = JArr (e :: es)) as (e & es & ->).
  { apply orb_false_iff in Hguard as [Hguard Hlen].
    apply orb_false_iff in Hguard as [_ Harr].
    destruct emails as [| | | | |[|e es]|]; try discriminate. eauto. }
  exists e, es, role, resend, config.
  repeat split; [done..|by eapply select_elem_of|].
  cbv zeta in Hpost. destruct (sendInvitesApi _ _ _ _ _).2;
    injection Hpost as _ <-; by apply list_elem_of_singleton in Hin.
Qed.

(** ** Saving and deleting *)

(** X5. When Deno KV accepts the write, [saveTeam] stores a team that
    has an id under that id, unchanged and without using the generated
    id, and gives a team without an id, or with the empty id, the
    generated one; when Deno KV refuses the write, [saveTeam] throws.
    Once [saveTeam] has completed with an id that is not empty, saving
    the returned team again completes and changes nothing, whatever id
    would be generated. *)
Theorem saveTeam_upsert uuid kv team :
  (∀ i, id team = Some i → i ≠ "" →
        kv_set_check i (team_to_js team) = Ok tt →
        saveTeam uuid kv team = Ok (team, <[i := team]> kv))
  ∧ (falsy (id team) = true →
     kv_set_check uuid (team_to_js (set_id team uuid)) = Ok tt →
     saveTeam uuid kv team
     = Ok (set_id team uuid, <[uuid := set_id team uuid]> kv))
  ∧ (∀ message,
       kv_set_check (or_str (id team) uuid)
         (team_to_js (if falsy (id team) then set_id team uuid else team))
       = Throw message →
       saveTeam uuid kv team = Throw message)
  ∧ (∀ team' kv',
       saveTeam uuid kv team = Ok (team', kv') →
       or_str (id team) uuid ≠ "" →
       ∀ uuid', saveTeam uuid' kv' team' = Ok (team', kv')).
Proof.
  assert (∀ u m t i, id t = Some i → i ≠ "" →
                     kv_set_check i (team_to_js t) = Ok tt →
                     saveTeam u m t = Ok (t, <[i := t]> m)) as Hkept.
  { intros u m t i Hid Hi%String.eqb_neq Hok.
    unfold saveTeam, mbind, Completion_bind, falsy.
    rewrite Hid, Hi, Hid. cbn. by rewrite Hi, Hok. }
  split; [apply Hkept|]. split; [|split].
  - intros Hfalsy Hok. unfold saveTeam, mbind, Completion_bind.
    rewrite Hfalsy. cbn.
    assert ((if uuid =? "" then uuid else uuid) = uuid) as ->
      by by destruct (uuid =? "").
    by rewrite Hok.
  - intros message Hthrow.
    destruct (saveTeam_cases uuid kv team)
      as [[message' Heq]|(t & Heq & -> & _ & Hok)]; [|congruence].
    unfold saveTeam, mbind, Completion_bind in Heq |- *.
    assert (or_str
              (id (if falsy (id team) then set_id team uuid else team)) uuid
            = or_str (id team) uuid) as Hkey.
    { unfold falsy, or_str. destruct (id team) as [i|] eqn:Hi; cbn.
      - destruct (i =? "") eqn:Hempty; cbn; [by destruct (uuid =? "")|].
        by rewrite Hi, Hempty.
      - by destruct (uuid =? ""). }
    rewrite Hkey in *. by rewrite Hthrow.
  - intros team' kv' Hsave Hkey uuid'.
    destruct (saveTeam_cases uuid kv team)
      as [[message Heq]|(t & Heq & _ & Hid & Hok)]; [congruence|].
    rewrite Heq in Hsave. injection Hsave as <- <-.
    rewrite (Hkept uuid' _ t _ Hid Hkey Hok). by rewrite insert_insert_eq.
Qed.

(** X6. Adding a team under an id that is not in use and deleting it by
    that id gives the store back as it was; so does the pair of requests
    when the body is rejected. *)
Theorem post_teams_delete_teams uuid kv (body : TeamsBody) :
  uuid ≠ "" →
  kv !! uuid = None →
  (delete_teams (post_teams uuid kv body).2 (Some uuid)).2 = kv.
Proof.
  intros Huuid%String.eqb_neq Hfresh.
  destruct (post_teams_outcome uuid kv body)
    as [[_ ->]|[[_ [message ->]]|[_ (tok & acc & _ & _ & _ & _ & Hok & ->)]]];
    unfold delete_teams, deleteTeam; rewrite Huuid; cbn [snd].
  - destruct (check_key uuid); [by apply delete_id|done].
  - destruct (check_key uuid); [by apply delete_id|done].
  - destruct (kv_set_check_cases uuid
                (team_to_js (added_team tok acc (tb_name body) uuid)))
      as [(Hkey & _ & _)|[_ [message Hthrow]]]; [|congruence].
    destruct (check_key_cases uuid) as [[_ ->]|[? _]]; [|lia].
    by apply delete_insert_id.
Qed.

Lemma fmap_id_stored (l : list (string * Team)) :
  Forall (λ p, id p.2 = Some p.1) l → id <$> l.*2 = Some <$> l.*1.
Proof. induction 1 as [|[k t] l Hid _ IH]; cbn in *; congruence. Qed.

(** X7. In a store that keeps every record under its own id, the list
    has one record for each entry and no two records of it have the same
    id. *)
Theorem loadTeams_ids_NoDup kv :
  kv_wf kv →
  length (loadTeams kv) = size kv ∧ NoDup (id <$> loadTeams kv).
Proof.
  intros Hwf. split; [apply length_loadTeams|].
  rewrite loadTeams_Permutation, fmap_id_stored.
  - apply (NoDup_fmap_2 _), NoDup_fst_map_to_list.
  - apply Forall_forall. intros [k t] Hin%elem_of_map_to_list.
    by apply Hwf.
Qed.

(** X8. Deleting an id that is stored removes one record from the list;
    deleting an id that is not stored leaves the store as it is. *)
Theorem deleteTeam_length kv x :
  (is_Some (kv !! x) →
   S (length (loadTeams (deleteTeam x kv))) = length (loadTeams kv))
  ∧ (kv !! x = None → deleteTeam x kv = kv).
Proof.
  unfold deleteTeam. split; [|apply delete_id].
  intros Hx. rewrite !length_loadTeams, (map_size_delete_Some _ _ Hx).
  destruct Hx as [t Hx].
  assert (size kv ≠ 0); [|lia].
  rewrite map_size_non_empty_iff. intros ->. by rewrite lookup_empty in Hx.
Qed.

(** ** The fallback *)

Lemma loadTeams_empty : loadTeams ∅ = [].
Proof. by apply loadTeams_nil. Qed.

Lemma getAllConfigs_fallback env fallbackToken fallbackAccountId :
  env !! "CHATGPT_TOKEN" = Some fallbackToken →
  env !! "CHATGPT_ACCOUNT_ID" = Some fallbackAccountId →
  fallbackToken ≠ "" → fallbackAccountId ≠ "" →
  getAllConfigs env ∅ = [fallback fallbackToken fallbackAccountId].
Proof.
  intros Htok Hacc Htok_ne%String.eqb_neq Hacc_ne%String.eqb_neq.
  unfold getAllConfigs. rewrite loadTeams_empty. cbn.
  by rewrite Htok, Hacc, Htok_ne, Hacc_ne.
Qed.

(** No configuration is available exactly when the store is empty and
    one of the two variables is unset or empty. *)
Lemma getAllConfigs_nil env kv :
  getAllConfigs env kv = []
  ↔ kv = ∅
    ∧ (falsy (env !! "CHATGPT_TOKEN") = true
       ∨ falsy (env !! "CHATGPT_ACCOUNT_ID") = true).
Proof.
  split.
  - intros Hnil.
    assert (kv = ∅) as ->.
    { destruct (getAllConfigs_cases env kv) as [Heq|[? _]]; [|done].
      apply loadTeams_nil. by rewrite <-Heq. }
    split; [done|]. unfold falsy.
    destruct (env !! "CHATGPT_TOKEN") as [tok|] eqn:Htok; [|by left].
    destruct (env !! "CHATGPT_ACCOUNT_ID") as [acc|] eqn:Hacc; [|by right].
    destruct (String.eqb_spec tok ""); [by left|].
    destruct (String.eqb_spec acc ""); [by right|].
    by rewrite (getAllConfigs_fallback env tok acc) in Hnil.
  - intros [-> Hunset]. unfold getAllConfigs, falsy in *.
    rewrite loadTeams_empty. cbn.
    destruct (env !! "CHATGPT_TOKEN") as [tok|]; [|done].
    destruct (env !! "CHATGPT_ACCOUNT_ID") as [acc|]; [|done].
    destruct Hunset as [->| ->]; by rewrite ?andb_false_r.
Qed.

(** X9. With a non-empty [emails] array, the route replies 500 with
    [{error: "No team configuration available"}] exactly when the store
    is empty and [CHATGPT_TOKEN] or [CHATGPT_ACCOUNT_ID] is unset or
    empty. *)
Theorem post_invite_no_config_iff env kv body e es :
  get_prop body "emails" = Ok (JArr (e :: es)) →
  post_invite env kv body
  = Ok ({| rs_status := Some 500%Z;
           rs_body :=
             Some (JObj [("error", JStr "No team configuration available")])
        |}, [])
  ↔ kv = ∅
    ∧ (falsy (env !! "CHATGPT_TOKEN") = true
       ∨ falsy (env !! "CHATGPT_ACCOUNT_ID") = true).
Proof.
  intros He.
  destruct (get_prop_defined _ _ _ "role" He) as [role Hr].
  destruct (get_prop_defined _ _ _ "resend" He) as [resend Hs].
  destruct (get_prop_defined _ _ _ "teamId" He) as [teamId Ht].
  rewrite (post_invite_read _ _ _ _ _ _ _ He Hr Hs Ht), <-getAllConfigs_nil.
  cbn [truthy isArray array_length negb orb length Nat.eqb].
  destruct (getAllConfigs env kv) as [|c configs] eqn:Hconfigs; [done|].
  cbn [length Nat.eqb]. split; [|done].
  destruct (select _ _); [|discriminate].
  cbv zeta. destruct (sendInvitesApi _ _ _ _ _).2; discriminate.
Qed.

(** X10. With an empty store and both variables set to non-empty
    strings, every [teamId], absent or not, selects the fallback: the one
    request sent for a non-empty [emails] array carries the token and the
    account id of the environment. *)
Theorem post_invite_fallback
    env body e es role resend teamId fallbackToken fallbackAccountId :
  env !! "CHATGPT_TOKEN" = Some fallbackToken →
  env !! "CHATGPT_ACCOUNT_ID" = Some fallbackAccountId →
  fallbackToken ≠ "" → fallbackAccountId ≠ "" →
  get_prop body "emails" = Ok (JArr (e :: es)) →
  get_prop body "role" = Ok role →
  get_prop body "resend" = Ok resend →
  get_prop body "teamId" = Ok teamId →
  ∃ reply,
    post_invite env ∅ body
    = Ok (reply,
          [invite_request (JArr (e :: es))
             (js_or role (JStr "reader")) (js_or resend (JBool false))
             fallbackToken fallbackAccountId]).
Proof.
  intros Htok Hacc Htok_ne Hacc_ne He Hr Hs Ht.
  rewrite (post_invite_selected _ _ _ _ _ _ _ _
             (fallback fallbackToken fallbackAccountId) He Hr Hs Ht).
  - cbv zeta. case_match; eauto.
  - rewrite (getAllConfigs_fallback env _ _ Htok Hacc Htok_ne Hacc_ne).
    apply select_single.
Qed.

(** ** What the routes store *)

Lemma or_str_nonempty o d : d ≠ "" → or_str o d ≠ "".
Proof.
  intros Hd. unfold or_str. destruct o as [s|]; [|done].
  by destruct (String.eqb_spec s "").
Qed.

Lemma kv_valid_post_teams uuid kv (body : TeamsBody) :
  kv_valid kv → kv_valid (post_teams uuid kv body).2.
Proof.
  intros Hvalid.
  destruct (post_teams_outcome uuid kv body)
    as [[_ ->]|[[_ [message ->]]|[_ (tok & acc & _ & _ & ? & ? & _ & ->)]]];
    [done..|].
  assert (or_str (tb_name body) "Team" ≠ "") by by apply or_str_nonempty.
  apply map_Forall_insert_2; cbn; eauto 10.
Qed.

Lemma kv_valid_delete_teams kv x :
  kv_valid kv → kv_valid (delete_teams kv x).2.
Proof.
  intros Hvalid. destruct (delete_teams_store kv x) as [->|(i & _ & ->)];
    [done|by apply map_Forall_delete].
Qed.

(** X11. Whatever requests the routes serve, every record they leave in
    the store is stored under its own id and has a token, an accountId
    and a name that are not empty. *)
Theorem serve_valid uuids n kv requests :
  kv_valid kv → kv_valid (serve uuids n kv requests).2.
Proof.
  revert n kv. induction requests as [|[body|x] requests IH];
    intros n kv Hvalid; [done|apply IH..].
  - by apply kv_valid_post_teams.
  - by apply kv_valid_delete_teams.
Qed.

(** ** The reading routes *)

Lemma getAllConfigs_tokens env kv config :
  kv_tokens kv → config ∈ getAllConfigs env kv → token config ≠ "".
Proof.
  intros Htokens Hin.
  destruct (getAllConfigs_cases env kv)
    as [Heq|(-> & tok & acc & _ & _ & Htok & _ & Heq)]; rewrite Heq in Hin.
  - apply elem_of_loadTeams in Hin as [k Hk]. by apply (Htokens k config Hk).
  - by apply list_elem_of_singleton in Hin as ->.
Qed.

(** X12. [GET /api/config] over a store of records with non-empty
    tokens: [hasConfig] is [true] exactly when a configuration is
    available, and then [token] and [accountId] are those of the first
    available configuration; otherwise both are [undefined]. When a team
    is stored they are the token and accountId of a stored team, whatever
    the environment holds. *)
Theorem get_config_reports env kv :
  kv_tokens kv →
  (getAllConfigs env kv = [] →
   get_config env kv
   = ({| rs_status := None;
         rs_body :=
           Some (JObj [("token", JUndefined); ("accountId", JUndefined);
                       ("hasConfig", JBool false)]) |},
      [("Content-Type", "application/json")]))
  ∧ (∀ config configs,
       getAllConfigs env kv = config :: configs →
       get_config env kv
       = ({| rs_status := None;
             rs_body :=
               Some (JObj [("token", JStr (token config));
                           ("accountId", JStr (accountId config));
                           ("hasConfig", JBool true)]) |},
          [("Content-Type", "application/json")])
       ∧ (kv ≠ ∅ → ∃ k, kv !! k = Some config)).
Proof.
  intros Hvalid. unfold get_config. split; [by intros ->|].
  intros config configs Hconfigs.
  assert (token config ≠ "") as Htok%String.eqb_neq.
  { apply (getAllConfigs_tokens env kv); [done|]. rewrite Hconfigs. by left. }
  split; [rewrite Hconfigs; cbn; by rewrite Htok|].
  intros Hkv. apply elem_of_loadTeams.
  rewrite <-(getAllConfigs_nonempty_store env kv Hkv), Hconfigs. by left.
Qed.

(** X13. [GET /health] counts the stored teams when there are any; with
    an empty store it reports 1 when both variables are set to non-empty
    strings and 0 otherwise. *)
Theorem get_health_teamsCount env kv :
  (get_health env kv).1
  = {| rs_status := None;
       rs_body :=
         Some (JObj [("status", JStr "ok");
                     ("teamsCount",
                      JNum (if decide (kv = ∅) then
                              if negb (falsy (env !! "CHATGPT_TOKEN"))
                                 && negb (falsy (env !! "CHATGPT_ACCOUNT_ID"))
                              then 1
                              else 0
                            else Z.of_nat (size kv)))]) |}.
Proof.
  unfold get_health. cbn [fst]. do 5 f_equal.
  destruct (decide (kv = ∅)) as [->|Hkv].
  - destruct (negb _ && negb _) eqn:Hset.
    + apply andb_true_iff in Hset as [Htok Hacc]. unfold falsy in *.
      destruct (env !! "CHATGPT_TOKEN") as [tok|] eqn:Etok; [|done].
      destruct (env !! "CHATGPT_ACCOUNT_ID") as [acc|] eqn:Eacc; [|done].
      apply negb_true_iff, String.eqb_neq in Htok, Hacc.
      by rewrite (getAllConfigs_fallback env tok acc).
    + apply andb_false_iff in Hset.
      rewrite !negb_false_iff in Hset.
      by rewrite (proj2 (getAllConfigs_nil env ∅) (conj eq_refl Hset)).
  - by rewrite (getAllConfigs_nonempty_store env kv Hkv), length_loadTeams.
Qed.

(** ** Adding, then reading *)

(** X14. After [POST /api/teams] has replied 201 for a generated id
    that was not in use, [GET /api/teams] returns one object more than
    entries were stored, the team of the reply among them; on an empty
    store it returns that object alone. *)
Theorem post_teams_get_teams uuid kv (body : TeamsBody) reply :
  (post_teams uuid kv body).1 = Ok reply →
  rs_status reply = Some 201%Z →
  kv !! uuid = None →
  ∃ tok acc objects,
    tb_token body = Some tok ∧ tb_accountId body = Some acc
    ∧ rs_body reply
      = Some (JObj [("success", JBool true);
                    ("team",
                     JObj [("token", JStr tok); ("accountId", JStr acc);
                           ("name", JStr (or_str (tb_name body) "Team"));
                           ("id", JStr uuid)])])
    ∧ get_teams (post_teams uuid kv body).2
      = {| rs_status := None; rs_body := Some (JArr objects) |}
    ∧ length objects = S (size kv)
    ∧ JObj [("token", JStr tok); ("accountId", JStr acc);
            ("name", JStr (or_str (tb_name body) "Team"));
            ("id", JStr uuid)] ∈ objects
    ∧ (kv = ∅ →
       objects
       = [JObj [("token", JStr tok); ("accountId", JStr acc);
                ("name", JStr (or_str (tb_name body) "Team"));
                ("id", JStr uuid)]]).
Proof.
  intros Hreply Hstatus Hfresh.
  destruct (post_teams_outcome uuid kv body)
    as [[_ Heq]|[[_ [message Heq]]
                |[_ (tok & acc & Htok & Hacc & _ & _ & _ & Heq)]]];
    rewrite Heq in Hreply |- *; cbn [fst snd] in *;
    [by injection Hreply as <-|done|].
  injection Hreply as <-.
  set (team := added_team tok acc (tb_name body) uuid).
  exists tok, acc. unfold get_teams. eexists.
  split; [done|]. split; [done|]. split; [reflexivity|]. split; [reflexivity|].
  assert (team ∈ loadTeams (<[uuid := team]> kv)) as Hin.
  { apply elem_of_loadTeams. exists uuid. apply lookup_insert_eq. }
  split; [|split].
  - by rewrite length_fmap, length_loadTeams, map_size_insert_None.
  - by apply (list_elem_of_fmap_2 team_to_js) in Hin.
  - intros ->.
    assert (loadTeams (<[uuid := team]> ∅) = [team]) as ->; [|done].
    apply Permutation_singleton_r.
    by rewrite loadTeams_Permutation, insert_empty, map_to_list_singleton.
Qed.

(** X15. A team added to a store that keeps every record under its own
    id can be selected by the id of the 201 reply: the request of a later
    invite with that [teamId] carries the token and accountId the team
    was added with. *)
Theorem post_teams_post_invite
    env uuid kv (body : TeamsBody) reply tok acc invite e es role resend :
  kv_wf kv →
  tb_token body = Some tok → tb_accountId body = Some acc →
  (post_teams uuid kv body).1 = Ok reply →
  rs_status reply = Some 201%Z →
  get_prop invite "emails" = Ok (JArr (e :: es)) →
  get_prop invite "role" = Ok role →
  get_prop invite "resend" = Ok resend →
  get_prop invite "teamId" = Ok (JStr uuid) →
  ∃ reply',
    post_invite env (post_teams uuid kv body).2 invite
    = Ok (reply',
          [invite_request (JArr (e :: es))
             (js_or role (JStr "reader")) (js_or resend (JBool false))
             tok acc]).
Proof.
  intros Hwf Htok Hacc Hreply Hstatus He Hr Hs Ht.
  pose proof (kv_wf_post_teams uuid kv body Hwf) as Hwf'.
  destruct (post_teams_outcome uuid kv body)
    as [[_ Heq]|[[_ [message Heq]]
                |[_ (tok' & acc' & Htok' & Hacc' & _ & _ & _ & Heq)]]];
    rewrite Heq in Hreply, Hwf' |- *; cbn [fst snd] in *;
    [by injection Hreply as <-|done|].
  assert (tok' = tok) as -> by congruence.
  assert (acc' = acc) as -> by congruence.
  rewrite (post_invite_selected _ _ _ _ _ _ _ _
             (added_team tok acc (tb_name body) uuid) He Hr Hs Ht).
  - cbv zeta. case_match; eauto.
  - apply select_stored_id; [done|apply lookup_insert_eq].
Qed.

End Program.

(** ** The comparison by code units is a consistent comparator *)

Lemma ascii_compare_refl c : Ascii.compare c c = Eq.
Proof. unfold Ascii.compare. apply N.compare_refl. Qed.

Lemma ascii_compare_Lt_trans a b c :
  Ascii.compare a b = Lt → Ascii.compare b c = Lt → Ascii.compare a c = Lt.
Proof.
  unfold Ascii.compare. rewrite !N.compare_lt_iff. apply N.lt_trans.
Qed.

Lemma string_compare_trans a b c :
  String.compare a b ≠ Gt → String.compare b c ≠ Gt →
  String.compare a c ≠ Gt.
Proof.
  revert b c. induction a as [|x a IH]; intros [|y b] [|z c]; cbn; try done.
  destruct (Ascii.compare x y) eqn:Hxy; [|clear IH|done].
  - apply Ascii.compare_eq_iff in Hxy as ->.
    destruct (Ascii.compare y z); [apply IH|done..].
  - destruct (Ascii.compare y z) eqn:Hyz.
    + apply Ascii.compare_eq_iff in Hyz as ->. by rewrite Hxy.
    + intros _ _. by rewrite (ascii_compare_Lt_trans x y z).
    + intros _ Hgt. by destruct Hgt.
Qed.

Lemma unitCompare_flip a b :
  Z.sgn (unitCompare b a) = (- Z.sgn (unitCompare a b))%Z.
Proof.
  unfold unitCompare. rewrite (String.compare_antisym a b).
  by destruct (String.compare b a).
Qed.

Lemma unitCompare_le a b : (unitCompare a b ≤ 0)%Z ↔ String.compare a b ≠ Gt.
Proof. unfold unitCompare. destruct (String.compare a b); split; done. Qed.

Lemma unitCompare_trans a b c :
  (unitCompare a b ≤ 0)%Z → (unitCompare b c ≤ 0)%Z →
  (unitCompare a c ≤ 0)%Z.
Proof. rewrite !unitCompare_le. apply string_compare_trans. Qed.

Lemma unitCompare_empty s : (unitCompare "" s ≤ 0)%Z.
Proof. by destruct s. Qed.

(** ** Records with the same name *)

Section stable.
Context {A} (R S : relation A) `{∀ x y, Decision (R x y)}.
Context `{!Transitive R, !Total R}.

(** Sorted by [R], and by [S] where [R] holds both ways. *)
Let T (a b : A) : Prop := R a b ∧ (R b a → S a b).

Lemma list_merge_singleton_stable x l :
  StronglySorted T l → Forall (S x) l →
  StronglySorted T (list_merge R [x] l).
Proof.
  induction 1 as [|y l Hl IH Hy]; intros HS.
  { cbn. repeat constructor. }
  apply Forall_cons in HS as [HSy HS]. rewrite list_merge_cons.
  destruct (decide (R x y)) as [Hxy|Hxy].
  - rewrite list_merge_nil_l. constructor; [by constructor|].
    constructor; [by split|].
    rewrite Forall_forall in Hy, HS |- *. intros z Hz. split; [|auto].
    etrans; [exact Hxy|]. by apply Hy.
  - constructor; [by apply IH|].
    rewrite merge_Permutation. cbn. constructor; [|done].
    split; [|done]. by destruct (total R x y).
Qed.

Lemma sort_by_stable l : StronglySorted S l → StronglySorted T (sort_by R l).
Proof.
  induction 1 as [|x l Hl IH Hx]; [constructor|].
  change (sort_by R (x :: l)) with (list_merge R [x] (sort_by R l)).
  apply list_merge_singleton_stable; [exact IH|].
  by rewrite sort_by_Permutation.
Qed.

End stable.

Global Instance key_le_total : Total key_le.
Proof. intros a b. unfold key_le. apply String.leb_total. Qed.

Lemma string_leb_compare a b : (a <=? b) = true ↔ String.compare a b ≠ Gt.
Proof. unfold String.leb. by destruct (String.compare a b). Qed.

Global Instance key_le_trans : Transitive key_le.
Proof.
  intros a b c. unfold key_le. rewrite !string_leb_compare.
  apply string_compare_trans.
Qed.

Lemma kv_list_StronglySorted (kv : gmap string Team) :
  StronglySorted key_le (kv_list kv).
Proof. apply StronglySorted_sort_by; apply _. Qed.

Section ties.

Variable localeCompare : string → string → Z.
Hypothesis localeCompare_flip :
  ∀ a b, Z.sgn (localeCompare b a) = (- Z.sgn (localeCompare a b))%Z.
Hypothesis localeCompare_trans :
  ∀ a b c,
    (localeCompare a b ≤ 0)%Z → (localeCompare b c ≤ 0)%Z →
    (localeCompare a c ≤ 0)%Z.

(** X16. In a store that keeps every record under its own id, two
    records of the list whose names compare equal stand in the order of
    their ids: the entries come from the store in key order and the sort
    keeps that order among equals. *)
Theorem loadTeams_ties_by_id (kv : gmap string Team) i j a b ia ib :
  kv_wf kv →
  i < j →
  loadTeams localeCompare kv !! i = Some a →
  loadTeams localeCompare kv !! j = Some b →
  localeCompare (or_str (name a) "") (or_str (name b) "") = 0%Z →
  id a = Some ia → id b = Some ib →
  (ia <=? ib) = true.
Proof.
  intros Hwf Hij Hi Hj Htie Hia Hib.
  set (S := λ t t' : Team,
              ∀ k k', id t = Some k → id t' = Some k' → (k <=? k') = true).
  assert (Total (name_le localeCompare)) as Htotal.
  { intros x y. unfold name_le.
    pose proof
      (localeCompare_flip (or_str (name x) "") (or_str (name y) "")).
    lia. }
  assert (Transitive (name_le localeCompare)) as Htrans.
  { intros x y z. unfold name_le. apply localeCompare_trans. }
  assert (StronglySorted S (kv_list kv).*2) as Hkeys.
  { assert (Forall (λ p, id p.2 = Some p.1) (kv_list kv)) as Hids.
    { apply Forall_forall. intros [k t] Hin.
      rewrite kv_list_Permutation in Hin.
      apply elem_of_map_to_list in Hin. by apply Hwf. }
    induction (kv_list_StronglySorted kv) as [|p l Hl IH Hp];
      [constructor|].
    apply Forall_cons in Hids as [Hp_id Hids].
    cbn. constructor; [by apply IH|].
    rewrite Forall_fmap. rewrite Forall_forall in Hp, Hids |- *.
    intros q Hq k k' Hk Hk'. cbn in Hk, Hk'.
    rewrite Hp_id in Hk. rewrite (Hids q Hq) in Hk'.
    injection Hk as <-. injection Hk' as <-. by apply Hp. }
  pose proof (sort_by_stable (name_le localeCompare) S _ Hkeys) as Hsorted.
  destruct (StronglySorted_lookup _ _ i j a b Hsorted Hij Hi Hj)
    as [_ Hstable].
  apply Hstable; [|done..]. unfold name_le.
  pose proof (localeCompare_flip (or_str (name a) "") (or_str (name b) "")).
  lia.
Qed.

End ties.

(** ** The program on concrete inputs *)

Lemma getAllConfigs_fallback_exclusive_witness :
  loadTeams unitCompare (store_of [alpha]) ≠ []
  ∧ getAllConfigs unitCompare env_set (store_of [alpha]) = [alpha].
Proof.
  assert (loadTeams unitCompare (store_of [alpha]) ≠ []) as Hstored
    by (vm_compute; discriminate).
  split; [exact Hstored|].
  destruct (getAllConfigs_fallback_exclusive
              unitCompare env_set (store_of [alpha])) as [Hexact _].
  destruct (Hexact Hstored) as [Heq _]. rewrite Heq. vm_compute. reflexivity.
Defined.

Lemma post_invite_resolution_failure_witness :
  post_invite unitCompare unreachable ∅ ∅ (invite_body JUndefined)
  = Ok ({| rs_status := Some 500%Z;
           rs_body :=
             Some (JObj [("error", JStr "No team configuration available")])
        |}, [])
  ∧ post_invite unitCompare unreachable env_set (store_of [alpha; beta])
      (invite_body (JStr "nobody"))
    = Ok ({| rs_status := Some 400%Z;
             rs_body :=
               Some (JObj [("error",
                            JStr "Invalid or missing team selection")])
          |}, []).
Proof.
  split.
  - apply (post_invite_resolution_failure unitCompare unreachable ∅ ∅
             (invite_body JUndefined) (JStr "x@y.com") [] JUndefined);
      vm_compute; reflexivity.
  - assert (getAllConfigs unitCompare env_set (store_of [alpha; beta])
            = [alpha; beta]) as Hconfigs by (vm_compute; reflexivity).
    apply (post_invite_resolution_failure unitCompare unreachable env_set
             (store_of [alpha; beta]) (invite_body (JStr "nobody"))
             (JStr "x@y.com") [] (JStr "nobody"));
      [reflexivity|reflexivity|rewrite Hconfigs; cbn; lia|].
    intros t Ht. rewrite Hconfigs in Ht.
    apply elem_of_cons in Ht as [->|Ht]; [discriminate|].
    apply list_elem_of_singleton in Ht as ->. discriminate.
Defined.

Lemma post_invite_single_team_witness :
  getAllConfigs unitCompare ∅ (store_of [alpha]) = [alpha]
  ∧ select (getAllConfigs unitCompare ∅ (store_of [alpha])) JUndefined
    = Some alpha
  ∧ ∃ reply,
      post_invite unitCompare forbidden ∅ (store_of [alpha])
        (invite_body JUndefined)
      = Ok (reply,
            [invite_request (JArr [JStr "x@y.com"]) (JStr "reader")
               (JBool false) "t1" "a1"]).
Proof.
  assert (getAllConfigs unitCompare ∅ (store_of [alpha]) = [alpha])
    as Hconfigs by (vm_compute; reflexivity).
  split; [exact Hconfigs|].
  apply (post_invite_single_team unitCompare forbidden ∅ (store_of [alpha])
           (invite_body JUndefined) (JStr "x@y.com") []
           JUndefined JUndefined JUndefined alpha);
    [reflexivity|reflexivity|reflexivity|reflexivity|exact Hconfigs|
     discriminate].
Defined.

Lemma post_invite_emails_required_witness :
  post_invite unitCompare forbidden env_set (store_of [alpha])
    (JObj [("emails", JArr [])])
  = Ok ({| rs_status := Some 400%Z;
           rs_body :=
             Some (JObj [("error", JStr "Emails array is required")]) |}, [])
  ∧ ∃ message,
      ∀ env kv, post_invite unitCompare forbidden env kv JUndefined
                = Throw message.
Proof.
  split.
  - destruct (post_invite_emails_required unitCompare forbidden env_set
                (store_of [alpha]) (JObj [("emails", JArr [])]))
      as [Hrequired _].
    destruct (Hrequired (JArr [])) as [Hreply _];
      [reflexivity|right; right; reflexivity|exact Hreply].
  - destruct (post_invite_emails_required unitCompare forbidden env_set
                (store_of [alpha]) JUndefined) as [_ Hthrows].
    apply Hthrows. left. reflexivity.
Defined.

(** A body that is [null] has no [emails], and the handler throws
    instead of replying 400. *)
Lemma post_invite_null_body :
  (∃ message,
     post_invite unitCompare forbidden env_set (store_of [alpha]) JNull
     = Throw message)
  ∧ post_invite unitCompare forbidden env_set (store_of [alpha]) JNull
    ≠ Ok ({| rs_status := Some 400%Z;
             rs_body :=
               Some (JObj [("error", JStr "Emails array is required")]) |},
          []).
Proof. split; [eexists; reflexivity|discriminate]. Qed.

Lemma loadTeams_sorted_witness :
  loadTeams unitCompare (store_of [beta; unnamed; alpha])
  = [unnamed; alpha; beta]
  ∧ Sorted (name_le unitCompare)
      (loadTeams unitCompare (store_of [beta; unnamed; alpha])).
Proof.
  split; [vm_compute; reflexivity|].
  apply (loadTeams_sorted unitCompare
           unitCompare_flip unitCompare_trans unitCompare_empty
           (store_of [beta; unnamed; alpha])).
Defined.

Lemma delete_teams_idempotent_witness :
  kv_wf (store_of [alpha; beta])
  ∧ delete_teams (store_of [alpha; beta])
      (Some "1b4e28ba-2fa1-41d2-883f-0016d3cca427")
    = (Ok {| rs_status := None;
             rs_body := Some (JObj [("success", JBool true)]) |},
       deleteTeam "1b4e28ba-2fa1-41d2-883f-0016d3cca427"
         (store_of [alpha; beta]))
  ∧ (∃ message,
       delete_teams (store_of [alpha; beta]) (Some long_id)
       = (Throw message, store_of [alpha; beta]))
  ∧ ∀ t,
      t ∈ loadTeams unitCompare
            (deleteTeam "1b4e28ba-2fa1-41d2-883f-0016d3cca427"
               (store_of [alpha; beta])) →
      id t ≠ Some "1b4e28ba-2fa1-41d2-883f-0016d3cca427".
Proof.
  assert (kv_wf (store_of [alpha; beta])) as Hwf
    by (unfold kv_wf; apply (bool_decide_unpack _); vm_compute; reflexivity).
  destruct (delete_teams_idempotent unitCompare (store_of [alpha; beta])
              "1b4e28ba-2fa1-41d2-883f-0016d3cca427")
    as (Hroute & _ & _ & _ & _ & Hlist).
  destruct (delete_teams_idempotent unitCompare (store_of [alpha; beta])
              long_id) as (_ & Hlong & _).
  split; [exact Hwf|]. split; [|split; [|exact (Hlist Hwf)]].
  - apply Hroute; [discriminate|vm_compute; discriminate].
  - apply Hlong; [discriminate|vm_compute; reflexivity].
Defined.

(** An id of 2040 characters makes a key of 2049 bytes: the handler
    throws and does not reply [{success: true}]. *)
Lemma delete_teams_long_id :
  long_id ≠ "" ∧ key_bytes long_id = 2049%Z
  ∧ (∃ message,
       delete_teams (store_of [alpha]) (Some long_id)
       = (Throw message, store_of [alpha]))
  ∧ (delete_teams (store_of [alpha]) (Some long_id)).1
    ≠ Ok {| rs_status := None;
            rs_body := Some (JObj [("success", JBool true)]) |}.
Proof.
  split; [discriminate|]. split; [vm_compute; reflexivity|].
  assert (delete_teams (store_of [alpha]) (Some long_id)
          = (Throw "Key too large for write (max 2048 bytes)",
             store_of [alpha])) as Hthrow by (vm_compute; reflexivity).
  split; [eauto|]. rewrite Hthrow. discriminate.
Qed.

Lemma post_invite_upstream_rejection_witness :
  sendInvitesApi forbidden (JArr [JStr "x@y.com"]) (JStr "reader")
    (JBool false) "t2" "a2"
  = ([invite_request (JArr [JStr "x@y.com"]) (JStr "reader")
        (JBool false) "t2" "a2"],
     Ok (Failure 403 "forbidden"))
  ∧ post_invite unitCompare forbidden ∅ (store_of [alpha; beta])
      (invite_body (JStr "1b4e28ba-2fa1-41d2-883f-0016d3cca427"))
    = Ok ({| rs_status := Some 403%Z;
             rs_body :=
               Some (JObj [("success", JBool false);
                           ("team", JStr "Beta");
                           ("details",
                            JObj [("success", JBool false);
                                  ("statusCode", JNum 403);
                                  ("error", JStr "forbidden")])]) |},
          [invite_request (JArr [JStr "x@y.com"]) (JStr "reader")
             (JBool false) "t2" "a2"]).
Proof.
  destruct (post_invite_upstream_rejection unitCompare forbidden)
    as [Hsend Hroute].
  split.
  - apply (Hsend (JArr [JStr "x@y.com"]) (JStr "reader") (JBool false)
             "t2" "a2"
             {| status := 403; text := Ok "forbidden";
                json := Throw "Unexpected token 'f'" |} "forbidden");
      reflexivity.
  - apply (Hroute ∅ (store_of [alpha; beta])
             (invite_body (JStr "1b4e28ba-2fa1-41d2-883f-0016d3cca427"))
             (JStr "x@y.com") [] JUndefined JUndefined
             (JStr "1b4e28ba-2fa1-41d2-883f-0016d3cca427") beta
             {| status := 403; text := Ok "forbidden";
                json := Throw "Unexpected token 'f'" |} "forbidden");
      [reflexivity|reflexivity|reflexivity|reflexivity|
       vm_compute; reflexivity|reflexivity|reflexivity|cbn; lia|reflexivity].
Defined.

Lemma post_invite_transport_failure_witness :
  sendInvitesApi unreachable (JArr [JStr "x@y.com"]) (JStr "reader")
    (JBool false) "t2" "a2"
  = ([invite_request (JArr [JStr "x@y.com"]) (JStr "reader")
        (JBool false) "t2" "a2"],
     Throw "error sending request")
  ∧ post_invite unitCompare unreachable ∅ (store_of [alpha; beta])
      (invite_body (JStr "1b4e28ba-2fa1-41d2-883f-0016d3cca427"))
    = Ok ({| rs_status := Some 500%Z;
             rs_body :=
               Some (JObj [("success", JBool false);
                           ("team", JStr "Beta");
                           ("error", JStr "error sending request")]) |},
          [invite_request (JArr [JStr "x@y.com"]) (JStr "reader")
             (JBool false) "t2" "a2"]).
Proof.
  destruct (post_invite_transport_failure unitCompare unreachable)
    as [Hsend Hroute].
  assert (sendInvitesApi unreachable (JArr [JStr "x@y.com"]) (JStr "reader")
            (JBool false) "t2" "a2"
          = ([invite_request (JArr [JStr "x@y.com"]) (JStr "reader")
                (JBool false) "t2" "a2"],
             Throw "error sending request")) as Hthrown
    by (apply Hsend; left; reflexivity).
  split; [exact Hthrown|].
  apply (Hroute ∅ (store_of [alpha; beta])
           (invite_body (JStr "1b4e28ba-2fa1-41d2-883f-0016d3cca427"))
           (JStr "x@y.com") [] JUndefined JUndefined
           (JStr "1b4e28ba-2fa1-41d2-883f-0016d3cca427") beta
           "error sending request");
    [reflexivity|reflexivity|reflexivity|reflexivity|
     vm_compute; reflexivity|].
  change (js_or JUndefined (JStr "reader")) with (JStr "reader").
  change (js_or JUndefined (JBool false)) with (JBool false).
  change (token beta) with "t2". change (accountId beta) with "a2".
  by rewrite Hthrown.
Defined.

Lemma post_teams_creates_witness :
  is_uuid "c56a4180-65aa-42ec-a945-5fd21dec0538" = true
  ∧ post_teams_value text_size "c56a4180-65aa-42ec-a945-5fd21dec0538"
      (body_value (add_body (Some "Alpha")))
    = (Ok {| rs_status := Some 201%Z;
             rs_body :=
               Some (JObj [("success", JBool true);
                           ("team",
                            JObj [("token", JStr "t1");
                                  ("accountId", JStr "a1");
                                  ("name", JStr "Alpha");
                                  ("id",
                                   JStr "c56a4180-65aa-42ec-a945-5fd21dec0538")
                                 ])]) |},
       [("c56a4180-65aa-42ec-a945-5fd21dec0538",
         JObj [("token", JStr "t1"); ("accountId", JStr "a1");
               ("name", JStr "Alpha");
               ("id", JStr "c56a4180-65aa-42ec-a945-5fd21dec0538")])])
  ∧ post_teams_value text_size "c56a4180-65aa-42ec-a945-5fd21dec0538"
      (JObj [("token", JStr "t1")])
    = (Ok {| rs_status := Some 400%Z;
             rs_body :=
               Some (JObj [("error",
                            JStr "Token and Account ID are required")]) |},
       []).
Proof.
  assert (is_uuid "c56a4180-65aa-42ec-a945-5fd21dec0538" = true) as Huuid
    by (vm_compute; reflexivity).
  split; [exact Huuid|]. split.
  - destruct (post_teams_creates unitCompare text_size
                "c56a4180-65aa-42ec-a945-5fd21dec0538"
                (body_value (add_body (Some "Alpha"))) Huuid)
      as [Hbody _].
    destruct (Hbody (JStr "t1") (JStr "a1") (JStr "Alpha") eq_refl)
      as [Hcreated _].
    apply Hcreated; [reflexivity|reflexivity|vm_compute; discriminate].
  - destruct (post_teams_creates unitCompare text_size
                "c56a4180-65aa-42ec-a945-5fd21dec0538"
                (JObj [("token", JStr "t1")]) Huuid) as [Hbody _].
    destruct (Hbody (JStr "t1") JUndefined JUndefined eq_refl)
      as (_ & Hrejected & _).
    apply Hrejected. right. reflexivity.
Defined.

(** With the empty name the team gets the name ["Team"], not the name
    of the body; with a token of 70000 characters the record is too large
    for Deno KV and the handler throws instead of replying 201; on a body
    that is [null] the handler throws instead of replying 400. *)
Lemma post_teams_placeholder_and_throws :
  post_teams_value text_size "c56a4180-65aa-42ec-a945-5fd21dec0538"
    (JObj [("token", JStr "t1"); ("accountId", JStr "a1");
           ("name", JStr "")])
  = (Ok {| rs_status := Some 201%Z;
           rs_body :=
             Some (JObj [("success", JBool true);
                         ("team",
                          JObj [("token", JStr "t1");
                                ("accountId", JStr "a1");
                                ("name", JStr "Team");
                                ("id",
                                 JStr "c56a4180-65aa-42ec-a945-5fd21dec0538")
                               ])]) |},
     [("c56a4180-65aa-42ec-a945-5fd21dec0538",
       JObj [("token", JStr "t1"); ("accountId", JStr "a1");
             ("name", JStr "Team");
             ("id", JStr "c56a4180-65aa-42ec-a945-5fd21dec0538")])])
  ∧ JStr "Team" ≠ JStr ""
  ∧ (∃ message,
       post_teams_value text_size "c56a4180-65aa-42ec-a945-5fd21dec0538"
         (JObj [("token", JStr long_token); ("accountId", JStr "a1");
                ("name", JStr "Alpha")])
       = (Throw message, []))
  ∧ (∃ message,
       post_teams_value text_size "c56a4180-65aa-42ec-a945-5fd21dec0538"
         JNull
       = (Throw message, [])).
Proof.
  split; [vm_compute; reflexivity|]. split; [discriminate|].
  split; eexists; vm_compute; reflexivity.
Qed.

Lemma post_teams_never_overwrites_witness :
  store_of [alpha] !! "c56a4180-65aa-42ec-a945-5fd21dec0538" = None
  ∧ (post_teams text_size "c56a4180-65aa-42ec-a945-5fd21dec0538"
       (store_of [alpha]) (add_body (Some "Alpha"))).2
    !! "7d9f3c1e-5a2b-4c8d-9e1f-0a1b2c3d4e5f" = Some alpha
  ∧ size (post_teams text_size "c56a4180-65aa-42ec-a945-5fd21dec0538"
            (store_of [alpha]) (add_body (Some "Alpha"))).2 = 2
  ∧ post_teams_value text_size "c56a4180-65aa-42ec-a945-5fd21dec0538"
      (JObj [("token", JStr "t1");
             ("id", JStr "7d9f3c1e-5a2b-4c8d-9e1f-0a1b2c3d4e5f");
             ("accountId", JStr "a1")])
    = post_teams_value text_size "c56a4180-65aa-42ec-a945-5fd21dec0538"
        (JObj [("token", JStr "t1"); ("accountId", JStr "a1")]).
Proof.
  assert (store_of [alpha] !! "c56a4180-65aa-42ec-a945-5fd21dec0538" = None)
    as Hfresh by (vm_compute; reflexivity).
  destruct (post_teams_never_overwrites text_size
              "c56a4180-65aa-42ec-a945-5fd21dec0538" (store_of [alpha])
              (add_body (Some "Alpha"))) as (Hid & _ & _ & _ & Hkept).
  destruct (Hkept Hfresh) as (Hstored & Hadded & _).
  split; [exact Hfresh|]. split; [|split].
  3: { apply Hid. intros k Hk. cbn.
       destruct (k =? "token"); [reflexivity|].
       destruct (String.eqb_spec k "id"); [contradiction|reflexivity]. }
  - apply Hstored. vm_compute. reflexivity.
  - destruct (Hadded
                {| rs_status := Some 201%Z;
              rs_body :=
                Some (JObj [("success", JBool true);
                            ("team",
                             JObj [("token", JStr "t1");
                                   ("accountId", JStr "a1");
                                   ("name", JStr "Alpha");
                                   ("id",
                                    JStr "c56a4180-65aa-42ec-a945-5fd21dec0538")
                                  ])]) |})
      as [Hsize _]; [vm_compute; reflexivity|reflexivity|].
    rewrite Hsize. reflexivity.
Defined.

(** A call without a token is answered 400, and a call whose record is
    too large for Deno KV throws: neither adds an entry. *)
Lemma post_teams_adds_nothing :
  post_teams text_size "c56a4180-65aa-42ec-a945-5fd21dec0538"
    (store_of [alpha])
    {| tb_token := None; tb_accountId := Some "a1"; tb_name := None;
       tb_others := [] |}
  = (Ok {| rs_status := Some 400%Z;
           rs_body :=
             Some (JObj [("error",
                          JStr "Token and Account ID are required")]) |},
     store_of [alpha])
  ∧ ∃ message,
      post_teams text_size "c56a4180-65aa-42ec-a945-5fd21dec0538"
        (store_of [alpha])
        {| tb_token := Some long_token; tb_accountId := Some "a1";
           tb_name := None; tb_others := [] |}
      = (Throw message, store_of [alpha]).
Proof. split; [|eexists]; vm_compute; reflexivity. Qed.

(** ** More of the program on concrete inputs *)

Lemma store_alpha_beta_wf : kv_wf (store_of [alpha; beta]).
Proof. unfold kv_wf. apply (bool_decide_unpack _). vm_compute. reflexivity. Qed.

Lemma store_alpha_valid : kv_valid (store_of [alpha]).
Proof.
  apply map_Forall_insert_2; [|apply map_Forall_empty].
  repeat split; [discriminate..|]. exists "Alpha". split; [reflexivity|discriminate].
Qed.

Lemma store_unnamed_tokens : kv_tokens (store_of [unnamed]).
Proof.
  apply map_Forall_insert_2; [discriminate|apply map_Forall_empty].
Qed.

Lemma post_invite_explicit_selection_witness :
  select (getAllConfigs unitCompare env_set (store_of [alpha; beta]))
    (JStr "1b4e28ba-2fa1-41d2-883f-0016d3cca427") = Some beta
  ∧ ∃ reply,
      post_invite unitCompare forbidden env_set (store_of [alpha; beta])
        (invite_body (JStr "1b4e28ba-2fa1-41d2-883f-0016d3cca427"))
      = Ok (reply,
            [invite_request (JArr [JStr "x@y.com"]) (JStr "reader")
               (JBool false) "t2" "a2"]).
Proof.
  apply (post_invite_explicit_selection unitCompare forbidden env_set
           (store_of [alpha; beta])
           (invite_body (JStr "1b4e28ba-2fa1-41d2-883f-0016d3cca427"))
           (JStr "x@y.com") [] JUndefined JUndefined
           "1b4e28ba-2fa1-41d2-883f-0016d3cca427" beta);
    [exact store_alpha_beta_wf|vm_compute; reflexivity|reflexivity..].
Defined.

Lemma post_invite_success_witness :
  post_invite unitCompare accepting ∅ (store_of [alpha; beta])
    (invite_body (JStr "1b4e28ba-2fa1-41d2-883f-0016d3cca427"))
  = Ok ({| rs_status := Some 200%Z;
           rs_body :=
             Some (JObj [("success", JBool true);
                         ("team", JStr "Beta");
                         ("details",
                          JObj [("success", JBool true);
                                ("data", JObj [])])]) |},
        [invite_request (JArr [JStr "x@y.com"]) (JStr "reader")
           (JBool false) "t2" "a2"]).
Proof.
  apply (post_invite_success unitCompare accepting ∅
           (store_of [alpha; beta])
           (invite_body (JStr "1b4e28ba-2fa1-41d2-883f-0016d3cca427"))
           (JStr "x@y.com") [] JUndefined JUndefined
           (JStr "1b4e28ba-2fa1-41d2-883f-0016d3cca427") beta
           {| status := 200; text := Ok "{}"; json := Ok (JObj []) |}
           (JObj []));
    [reflexivity|reflexivity|reflexivity|reflexivity|
     vm_compute; reflexivity|reflexivity|cbn; lia|reflexivity].
Defined.

Lemma post_invite_completes_witness :
  (∃ message,
     post_invite unitCompare forbidden env_set (store_of [alpha]) JNull
     = Throw message)
  ∧ (length
       [invite_request (JArr [JStr "x@y.com"]) (JStr "reader") (JBool false)
          "t1" "a1"] ≤ 1)%nat.
Proof.
  split.
  - apply (post_invite_completes unitCompare forbidden env_set
             (store_of [alpha]) JNull). right. reflexivity.
  - destruct (post_invite_completes unitCompare forbidden env_set
                (store_of [alpha]) (invite_body JUndefined)) as [_ Hdone].
    destruct (Hdone
                {| rs_status := Some 403%Z;
                   rs_body :=
                     Some (JObj [("success", JBool false);
                                 ("team", JStr "Alpha");
                                 ("details",
                                  JObj [("success", JBool false);
                                        ("statusCode", JNum 403);
                                        ("error", JStr "forbidden")])]) |}
                [invite_request (JArr [JStr "x@y.com"]) (JStr "reader")
                   (JBool false) "t1" "a1"])
      as (_ & _ & Hsent & _); [vm_compute; reflexivity|exact Hsent].
Defined.

Lemma post_invite_sent_from_config_witness :
  ∃ e es role resend config,
    get_prop (invite_body JUndefined) "emails" = Ok (JArr (e :: es))
    ∧ get_prop (invite_body JUndefined) "role" = Ok role
    ∧ get_prop (invite_body JUndefined) "resend" = Ok resend
    ∧ config ∈ getAllConfigs unitCompare env_set (store_of [alpha])
    ∧ invite_request (JArr [JStr "x@y.com"]) (JStr "reader") (JBool false)
        "t1" "a1"
      = invite_request (JArr (e :: es))
          (js_or role (JStr "reader")) (js_or resend (JBool false))
          (token config) (accountId config).
Proof.
  apply (post_invite_sent_from_config unitCompare unreachable env_set
           (store_of [alpha]) (invite_body JUndefined)
           {| rs_status := Some 500%Z;
              rs_body :=
                Some (JObj [("success", JBool false);
                            ("team", JStr "Alpha");
                            ("error", JStr "error sending request")]) |}
           [invite_request (JArr [JStr "x@y.com"]) (JStr "reader")
              (JBool false) "t1" "a1"]);
    [vm_compute; reflexivity|by left].
Defined.

Lemma saveTeam_upsert_witness :
  or_str (id unnamed) "7d9f3c1e-5a2b-4c8d-9e1f-0a1b2c3d4e5f" ≠ ""
  ∧ saveTeam text_size "1b4e28ba-2fa1-41d2-883f-0016d3cca427"
      (<["c56a4180-65aa-42ec-a945-5fd21dec0538" := unnamed]> ∅) unnamed
    = Ok (unnamed, <["c56a4180-65aa-42ec-a945-5fd21dec0538" := unnamed]> ∅).
Proof.
  assert (or_str (id unnamed) "7d9f3c1e-5a2b-4c8d-9e1f-0a1b2c3d4e5f" ≠ "")
    as Hkey by (vm_compute; discriminate).
  split; [exact Hkey|].
  destruct (saveTeam_upsert text_size
              "7d9f3c1e-5a2b-4c8d-9e1f-0a1b2c3d4e5f" ∅ unnamed)
    as (_ & _ & _ & Hagain).
  apply (Hagain unnamed
           (<["c56a4180-65aa-42ec-a945-5fd21dec0538" := unnamed]> ∅));
    [vm_compute; reflexivity|exact Hkey].
Defined.

Lemma post_teams_delete_teams_witness :
  (delete_teams
     (post_teams text_size "c56a4180-65aa-42ec-a945-5fd21dec0538"
        (store_of [alpha]) (add_body (Some "Gamma"))).2
     (Some "c56a4180-65aa-42ec-a945-5fd21dec0538")).2
  = store_of [alpha].
Proof.
  apply (post_teams_delete_teams text_size
           "c56a4180-65aa-42ec-a945-5fd21dec0538"
           (store_of [alpha]) (add_body (Some "Gamma")));
    [discriminate|vm_compute; reflexivity].
Defined.

Lemma loadTeams_ids_NoDup_witness :
  length (loadTeams unitCompare (store_of [alpha; beta])) = 2
  ∧ NoDup (id <$> loadTeams unitCompare (store_of [alpha; beta])).
Proof.
  destruct (loadTeams_ids_NoDup unitCompare (store_of [alpha; beta])
              store_alpha_beta_wf) as [Hlength Hids].
  split; [rewrite Hlength; vm_compute; reflexivity|exact Hids].
Defined.

Lemma deleteTeam_length_witness :
  S (length (loadTeams unitCompare
               (deleteTeam "1b4e28ba-2fa1-41d2-883f-0016d3cca427"
                  (store_of [alpha; beta]))))
  = length (loadTeams unitCompare (store_of [alpha; beta]))
  ∧ deleteTeam "nobody" (store_of [alpha; beta]) = store_of [alpha; beta].
Proof.
  split.
  - apply (deleteTeam_length unitCompare (store_of [alpha; beta])
             "1b4e28ba-2fa1-41d2-883f-0016d3cca427").
    exists beta. vm_compute. reflexivity.
  - apply (deleteTeam_length unitCompare (store_of [alpha; beta]) "nobody").
    vm_compute. reflexivity.
Defined.

Lemma post_invite_no_config_iff_witness :
  post_invite unitCompare forbidden ∅ ∅ (invite_body JUndefined)
  = Ok ({| rs_status := Some 500%Z;
           rs_body :=
             Some (JObj [("error", JStr "No team configuration available")])
        |}, []).
Proof.
  apply (post_invite_no_config_iff unitCompare forbidden ∅ ∅
           (invite_body JUndefined) (JStr "x@y.com") []); [reflexivity|].
  split; [reflexivity|left; reflexivity].
Defined.

Lemma post_invite_fallback_witness :
  ∃ reply,
    post_invite unitCompare forbidden env_set ∅
      (invite_body (JStr "7d9f3c1e-5a2b-4c8d-9e1f-0a1b2c3d4e5f"))
    = Ok (reply,
          [invite_request (JArr [JStr "x@y.com"]) (JStr "reader")
             (JBool false) "env-token" "env-account"]).
Proof.
  apply (post_invite_fallback unitCompare forbidden env_set
           (invite_body (JStr "7d9f3c1e-5a2b-4c8d-9e1f-0a1b2c3d4e5f"))
           (JStr "x@y.com") [] JUndefined JUndefined
           (JStr "7d9f3c1e-5a2b-4c8d-9e1f-0a1b2c3d4e5f")
           "env-token" "env-account");
    [vm_compute; reflexivity|vm_compute; reflexivity|discriminate|
     discriminate|reflexivity..].
Defined.

Lemma serve_valid_witness :
  kv_valid
    (serve text_size (λ _, "c56a4180-65aa-42ec-a945-5fd21dec0538") 0
       (store_of [alpha])
       [AddTeam (add_body None);
        DeleteTeam (Some "7d9f3c1e-5a2b-4c8d-9e1f-0a1b2c3d4e5f")]).2.
Proof.
  apply (serve_valid text_size (λ _, "c56a4180-65aa-42ec-a945-5fd21dec0538")
           0 (store_of [alpha])
           [AddTeam (add_body None);
            DeleteTeam (Some "7d9f3c1e-5a2b-4c8d-9e1f-0a1b2c3d4e5f")]
           store_alpha_valid).
Defined.

Lemma get_config_reports_witness :
  get_config unitCompare env_set (store_of [unnamed])
  = ({| rs_status := None;
        rs_body :=
          Some (JObj [("token", JStr "t3"); ("accountId", JStr "a3");
                      ("hasConfig", JBool true)]) |},
     [("Content-Type", "application/json")]).
Proof.
  destruct (get_config_reports unitCompare env_set (store_of [unnamed])
              store_unnamed_tokens) as [_ Hfirst].
  destruct (Hfirst unnamed []) as [Hreply _]; [vm_compute; reflexivity|].
  exact Hreply.
Defined.

Lemma post_teams_get_teams_witness :
  ∃ objects,
    get_teams unitCompare
      (post_teams text_size "c56a4180-65aa-42ec-a945-5fd21dec0538" ∅
         (add_body (Some "Alpha"))).2
    = {| rs_status := None; rs_body := Some (JArr objects) |}
    ∧ objects
      = [JObj [("token", JStr "t1"); ("accountId", JStr "a1");
               ("name", JStr "Alpha");
               ("id", JStr "c56a4180-65aa-42ec-a945-5fd21dec0538")]].
Proof.
  destruct (post_teams_get_teams unitCompare text_size
              "c56a4180-65aa-42ec-a945-5fd21dec0538" ∅
              (add_body (Some "Alpha"))
              {| rs_status := Some 201%Z;
              rs_body :=
                Some (JObj [("success", JBool true);
                            ("team",
                             JObj [("token", JStr "t1");
                                   ("accountId", JStr "a1");
                                   ("name", JStr "Alpha");
                                   ("id",
                                    JStr "c56a4180-65aa-42ec-a945-5fd21dec0538")
                                  ])]) |})
    as (tok & acc & objects & Htok & Hacc & _ & Hget & _ & _ & Honly);
    [vm_compute; reflexivity|reflexivity|vm_compute; reflexivity|].
  injection Htok as <-. injection Hacc as <-.
  exists objects. split; [exact Hget|exact (Honly eq_refl)].
Defined.

Lemma post_teams_post_invite_witness :
  ∃ reply,
    post_invite unitCompare forbidden ∅
      (post_teams text_size "c56a4180-65aa-42ec-a945-5fd21dec0538"
         (store_of [alpha; beta]) (add_body (Some "Gamma"))).2
      (invite_body (JStr "c56a4180-65aa-42ec-a945-5fd21dec0538"))
    = Ok (reply,
          [invite_request (JArr [JStr "x@y.com"]) (JStr "reader")
             (JBool false) "t1" "a1"]).
Proof.
  apply (post_teams_post_invite unitCompare forbidden text_size ∅
           "c56a4180-65aa-42ec-a945-5fd21dec0538" (store_of [alpha; beta])
           (add_body (Some "Gamma"))
           {| rs_status := Some 201%Z;
              rs_body :=
                Some (JObj [("success", JBool true);
                            ("team",
                             JObj [("token", JStr "t1");
                                   ("accountId", JStr "a1");
                                   ("name", JStr "Gamma");
                                   ("id",
                                    JStr "c56a4180-65aa-42ec-a945-5fd21dec0538")
                                  ])]) |}
           "t1" "a1"
           (invite_body (JStr "c56a4180-65aa-42ec-a945-5fd21dec0538"))
           (JStr "x@y.com") [] JUndefined JUndefined);
    [exact store_alpha_beta_wf|reflexivity|reflexivity|
     vm_compute; reflexivity|reflexivity|reflexivity..].
Defined.

Lemma loadTeams_ties_by_id_witness :
  loadTeams unitCompare (store_of [second_team; first_team])
  = [first_team; second_team]
  ∧ ("1b4e28ba-2fa1-41d2-883f-0016d3cca427"
     <=? "7d9f3c1e-5a2b-4c8d-9e1f-0a1b2c3d4e5f") = true.
Proof.
  split; [vm_compute; reflexivity|].
  apply (loadTeams_ties_by_id unitCompare unitCompare_flip unitCompare_trans
           (store_of [second_team; first_team]) 0 1 first_team second_team);
    [unfold kv_wf; apply (bool_decide_unpack _); vm_compute; reflexivity|
     lia|vm_compute; reflexivity..].
Defined.
